(** * Anna's Archive search plugin: a shallow embedding and its properties

    This development embeds [config/plugins/search/annas_archive.py]
    (class [AnnasArchiveSearch]) and proves properties of its result
    parser, of its record normaliser and of its size conversion.

    Conventions of the embedding.
    - A Python [str] is a [string]; one element of the string is one
      character of the text.  Only ASCII text is modelled (the texts
      for which [str.isascii()] holds, [Str.isascii] here): on it the
      character classes, the case mappings and the case-insensitive
      matching below are those of Python.  Python gives further
      characters a class or a case (other white space, digits and
      letters, and letters such as the dotless i, the long s and the
      Kelvin sign that [re.I] matches with ASCII letters); a text with
      such characters has no counterpart here, and a property that
      depends on the class or the case of the characters of a text is
      stated for ASCII text.
    - A Python [dict] with string keys is a [gmap string string]; a
      Python [set] of strings is a [gset string].
    - A Python [float] is an IEEE 754 binary64 value, kept as an exact
      integer mantissa and a binary exponent ([Binary64]).
    - A call that may raise returns an [outcome].
    - [print] calls have no effect on any value and are left out. *)

From stdpp Require Import gmap strings list pretty.
From Stdlib Require Import ZArith Ascii.

Local Open Scope Z_scope.

(** * Outcomes of calls that may raise *)

(** An exception is kept as its class and its message, [str(e)]. *)
Inductive exn : Type :=
| ValueError (msg : string)
| OverflowError (msg : string)
| Exception (msg : string).

Definition str_exn (e : exn) : string :=
  match e with
  | ValueError msg | OverflowError msg | Exception msg => msg
  end.

Inductive outcome (A : Type) : Type :=
| Return (a : A)
| Raise (e : exn).
Arguments Return {A} a.
Arguments Raise {A} e.

(** * Python [str] operations *)

Module Str.

Definition code (c : ascii) : nat := nat_of_ascii c.

(** [s.isascii()]: every character is below 128. *)
Definition isascii_char (c : ascii) : bool := Nat.ltb (code c) 128.

Fixpoint isascii (s : string) : bool :=
  match s with
  | EmptyString => true
  | String c s' => isascii_char c && isascii s'
  end.

Definition between (lo hi : nat) (c : ascii) : bool :=
  (Nat.leb lo (code c)) && (Nat.leb (code c) hi).

(** [str.isspace], the class [\s] and the characters that [strip()]
    removes, on ASCII: tab, LF, VT, FF, CR, the four separators FS GS
    RS US, and the space. *)
Definition isspace (c : ascii) : bool :=
  between 9 13 c || between 28 32 c.

(** [\d] on ASCII: the digits 0 to 9. *)
Definition isdecimal (c : ascii) : bool := between 48 57 c.

Definition isupper (c : ascii) : bool := between 65 90 c.
Definition islower (c : ascii) : bool := between 97 122 c.

(** [\w] on ASCII: letters, digits and the underscore; [\b] is a
    change of this class. *)
Definition isword (c : ascii) : bool :=
  isdecimal c || isupper c || islower c || Nat.eqb (code c) 95.

(** [c.lower()] and [c.upper()] on ASCII: the 26 letters change case,
    every other ASCII character is left as it is. *)
Definition lower_char (c : ascii) : ascii :=
  if isupper c then ascii_of_nat (code c + 32) else c.

Definition upper_char (c : ascii) : ascii :=
  if islower c then ascii_of_nat (code c - 32) else c.

Fixpoint map_chars (f : ascii → ascii) (s : string) : string :=
  match s with
  | EmptyString => EmptyString
  | String c s' => String (f c) (map_chars f s')
  end.

(** [s.lower()] and [s.upper()]. *)
Definition lower : string → string := map_chars lower_char.
Definition upper : string → string := map_chars upper_char.

(** [len(s)]: the number of characters. *)
Definition len (s : string) : nat := String.length s.

(** Truth value of a string: [if s:]. *)
Definition truthy (s : string) : bool :=
  match s with EmptyString => false | String _ _ => true end.

(** Membership of a character in a string of characters. *)
Fixpoint mem (c : ascii) (cs : string) : bool :=
  match cs with
  | EmptyString => false
  | String d cs' => if Ascii.eqb c d then true else mem c cs'
  end.

Fixpoint lstrip_by (p : ascii → bool) (s : string) : string :=
  match s with
  | EmptyString => EmptyString
  | String c s' => if p c then lstrip_by p s' else s
  end.

Fixpoint rstrip_by (p : ascii → bool) (s : string) : string :=
  match s with
  | EmptyString => EmptyString
  | String c s' =>
      match rstrip_by p s' with
      | EmptyString => if p c then EmptyString else String c EmptyString
      | r => String c r
      end
  end.

Definition strip_by (p : ascii → bool) (s : string) : string :=
  rstrip_by p (lstrip_by p s).

(** [s.strip()] removes surrounding white space; [s.strip(cs)]
    removes surrounding characters that occur in [cs]. *)
Definition strip : string → string := strip_by isspace.
Definition strip_chars (cs : string) : string → string :=
  strip_by (λ c, mem c cs).

(** [s[:n]]. *)
Fixpoint slice_to (n : nat) (s : string) : string :=
  match n, s with
  | S n', String c s' => String c (slice_to n' s')
  | _, _ => EmptyString
  end.

(** [s.startswith(p)]. *)
Fixpoint startswith (p s : string) : bool :=
  match p, s with
  | EmptyString, _ => true
  | String a p', String b s' => if Ascii.eqb a b then startswith p' s' else false
  | String _ _, EmptyString => false
  end.

(** [p in s]. *)
Fixpoint contains (p s : string) : bool :=
  if startswith p s then true
  else match s with
       | EmptyString => false
       | String _ s' => contains p s'
       end.

(** [sep.join(parts)]. *)
Fixpoint join (sep : string) (parts : list string) : string :=
  match parts with
  | [] => ""
  | [p] => p
  | p :: rest => p +:+ sep +:+ join sep rest
  end.

(** [str(n)] for an integer [n]. *)
Definition of_int (n : Z) : string := pretty n.

End Str.

(** * Regular expressions: the fragment of Python [re] used by the plugin

    A backtracking matcher with Python's priorities: alternatives are
    tried from left to right, [+] and [*] are greedy and give characters
    back one at a time.  Repetition is only needed over one-character
    items.  Under [re.I] a literal matches both cases of a letter; the
    sets that the plugin combines with [re.I] are closed under case. *)

Module Re.

Inductive regex : Type :=
| Chr (c : ascii)
| In (p : ascii → bool)
| Star (p : ascii → bool)
| Plus (p : ascii → bool)
| Cat (r1 r2 : regex)
| Alt (r1 r2 : regex)
| Group (i : nat) (r : regex)
| WordB.

(** The text of each closed group, most recent first. *)
Definition captures : Type := list (nat * string).

Fixpoint group (i : nat) (caps : captures) : option string :=
  match caps with
  | [] => None
  | (j, w) :: caps' => if Nat.eqb i j then Some w else group i caps'
  end.

(** A literal string is the concatenation of its characters. *)
Fixpoint lit (w : string) : regex :=
  match w with
  | EmptyString => Star (λ _, false)
  | String c EmptyString => Chr c
  | String c w' => Cat (Chr c) (lit w')
  end.

(** A literal [c] of the pattern against a character [x] of the
    subject; under [re.I] on ASCII the two are compared without their
    case. *)
Definition chr_eq (ic : bool) (c x : ascii) : bool :=
  if ic then Ascii.eqb (Str.lower_char c) (Str.lower_char x)
  else Ascii.eqb c x.

(** The text between two positions, each given by what is left of
    the subject. *)
Definition consumed (s s' : string) : string :=
  Str.slice_to (String.length s - String.length s') s.

Definition at_boundary (prev : option ascii) (s : string) : bool :=
  xorb (from_option Str.isword false prev)
       (match s with String x _ => Str.isword x | EmptyString => false end).

Section exec.
Context {R : Type}.

(** Greedy repetition of a one-character item. *)
Fixpoint rep (p : ascii → bool) (prev : option ascii) (s : string)
    (k : option ascii → string → option R) : option R :=
  match s with
  | String x s' =>
      if p x then
        match rep p (Some x) s' k with
        | Some r => Some r
        | None => k prev s
        end
      else k prev s
  | EmptyString => k prev s
  end.

(** [exec r ic prev s caps k]: match [r] at the position whose
    preceding character is [prev] and whose remaining text is [s],
    then continue with [k]; [None] when every way of matching
    fails. *)
Fixpoint exec (r : regex) (ic : bool) (prev : option ascii) (s : string)
    (caps : captures)
    (k : option ascii → string → captures → option R) : option R :=
  match r with
  | Chr c =>
      match s with
      | String x s' => if chr_eq ic c x then k (Some x) s' caps else None
      | EmptyString => None
      end
  | In p =>
      match s with
      | String x s' => if p x then k (Some x) s' caps else None
      | EmptyString => None
      end
  | Star p => rep p prev s (λ prev' s', k prev' s' caps)
  | Plus p =>
      match s with
      | String x s' =>
          if p x then rep p (Some x) s' (λ prev' s', k prev' s' caps)
          else None
      | EmptyString => None
      end
  | Cat r1 r2 =>
      exec r1 ic prev s caps (λ prev' s' caps', exec r2 ic prev' s' caps' k)
  | Alt r1 r2 =>
      match exec r1 ic prev s caps k with
      | Some m => Some m
      | None => exec r2 ic prev s caps k
      end
  | Group i r1 =>
      exec r1 ic prev s caps
        (λ prev' s' caps', k prev' s' ((i, consumed s s') :: caps'))
  | WordB => if at_boundary prev s then k prev s caps else None
  end.
End exec.

Definition accept : option ascii → string → captures → option captures :=
  λ _ _ caps, Some caps.

(** [re.match(r, s)]: a match at the start of [s]. *)
Definition match_ (r : regex) (ic : bool) (s : string) : option captures :=
  exec r ic None s [] accept.

Fixpoint search_from (r : regex) (ic : bool) (prev : option ascii) (s : string)
    : option captures :=
  match exec r ic prev s [] accept with
  | Some m => Some m
  | None =>
      match s with
      | String x s' => search_from r ic (Some x) s'
      | EmptyString => None
      end
  end.

(** [re.search(r, s)]: the leftmost match in [s]. *)
Definition search (r : regex) (ic : bool) (s : string) : option captures :=
  search_from r ic None s.

(** [w1|w2|...|wn] for literal words. *)
Fixpoint alts (ws : list string) : regex :=
  match ws with
  | [] => In (λ _, false)
  | [w] => lit w
  | w :: ws' => Alt (lit w) (alts ws')
  end.

End Re.

(** * IEEE 754 binary64, the Python [float]

    A finite value is [m * 2^e] with an integer mantissa [m ≥ 0]; the
    plugin never builds a negative number.  Every operation returns the
    exact result rounded to the nearest representable value, ties to the
    even mantissa, as IEEE 754 prescribes. *)

Module Binary64.

Inductive float : Type :=
| Finite (m e : Z)
| Inf
| NaN.

Definition prec : Z := 53.
Definition emin : Z := -1074.
Definition emax : Z := 1024.

(** Is [2^l <= num / den] ? *)
Definition pow2_le (l num den : Z) : bool :=
  if 0 <=? l then 2 ^ l * den <=? num else den <=? num * 2 ^ (- l).

(** [floor (log2 (num / den))] for [num, den > 0]. *)
Definition ilog2 (num den : Z) : Z :=
  let l := Z.log2 num - Z.log2 den in
  if pow2_le l num den then l else l - 1.

(** The binary64 value nearest to [num / den], for [num ≥ 0] and
    [den > 0].  The exponent [e] of the last mantissa bit is chosen so
    that the mantissa has 53 bits, or is [emin] in the subnormal
    range; the quotient by [2^e] is then rounded to an integer. *)
Definition round (num den : Z) : float :=
  if num =? 0 then Finite 0 0 else
  let e := Z.max (ilog2 num den - (prec - 1)) emin in
  let n := num * 2 ^ Z.max 0 (- e) in
  let d := den * 2 ^ Z.max 0 e in
  let q := n / d in
  let r := n mod d in
  let m :=
    if 2 * r <? d then q
    else if 2 * r =? d then (if Z.even q then q else q + 1)
    else q + 1 in
  if 2 ^ emax * 2 ^ Z.max 0 (- e) <=? m * 2 ^ Z.max 0 e then Inf
  else Finite m e.

(** [float(n)] for an integer [n ≥ 0]. *)
Definition of_int (n : Z) : float := round n 1.

(** [x * y] on floats. *)
Definition mul (x y : float) : float :=
  match x, y with
  | NaN, _ | _, NaN => NaN
  | Inf, Inf => Inf
  | Inf, Finite m _ | Finite m _, Inf => if m =? 0 then NaN else Inf
  | Finite m1 e1, Finite m2 e2 =>
      let e := e1 + e2 in
      round (m1 * m2 * 2 ^ Z.max 0 e) (2 ^ Z.max 0 (- e))
  end.

(** [int(x)]: truncation; infinities and NaN raise. *)
Definition to_int (x : float) : outcome Z :=
  match x with
  | Finite m e => Return (if 0 <=? e then m * 2 ^ e else m / 2 ^ (- e))
  | Inf => Raise (OverflowError "cannot convert float infinity to integer")
  | NaN => Raise (ValueError "cannot convert float NaN to integer")
  end.

Fixpoint int_of_digits (acc : Z) (s : string) : option Z :=
  match s with
  | EmptyString => Some acc
  | String c s' =>
      if Str.isdecimal c
      then int_of_digits (10 * acc + (Z.of_nat (Str.code c) - 48)) s'
      else None
  end.

(** Split at the first dot. *)
Fixpoint split_dot (s : string) : string * option string :=
  match s with
  | EmptyString => (EmptyString, None)
  | String c s' =>
      if Ascii.eqb c "." then (EmptyString, Some s')
      else let '(a, b) := split_dot s' in (String c a, b)
  end.

(** [float(s)] for a string [s] of digits and dots, which is all the
    plugin passes to it: digits with at most one dot and at least one
    digit denote a decimal number, rounded to the nearest binary64
    value; every other such string raises [ValueError]. *)
Definition of_str (s : string) : outcome float :=
  let error := ValueError ("could not convert string to float: '" +:+ s +:+ "'") in
  let '(ip, rest) := split_dot s in
  let fp := default EmptyString rest in
  if negb (Str.truthy (ip +:+ fp)) then Raise error else
  match int_of_digits 0 (ip +:+ fp) with
  | Some n => Return (round n (10 ^ Z.of_nat (String.length fp)))
  | None => Raise error
  end.

End Binary64.

(** * The plugin *)

Definition BASE_URL : string := "https://annas-archive.org".

Definition getprefix : string := "annas_archive".

(** ** [_convert_size_to_bytes] *)

Definition digit_or_dot (c : ascii) : bool :=
  Str.isdecimal c || Ascii.eqb c ".".

(** [([\d.]+)\s*(MB|KB|GB|B)] *)
Definition size_re : Re.regex :=
  Re.Cat (Re.Group 1 (Re.Plus digit_or_dot))
    (Re.Cat (Re.Star Str.isspace)
       (Re.Group 2 (Re.alts ["MB"; "KB"; "GB"; "B"]))).

Definition multipliers : gmap string Z :=
  list_to_map
    [("B", 1); ("KB", 1024); ("MB", 1024 * 1024); ("GB", 1024 * 1024 * 1024)].

Definition group_text (i : nat) (m : Re.captures) : string :=
  default EmptyString (Re.group i m).

(** [size_str] is [None] when the argument is Python's [None]. *)
Definition _convert_size_to_bytes (size_str : option string) : outcome string :=
  match size_str with
  | None => Return "0"
  | Some s =>
      if negb (Str.truthy s) then Return "0" else
      match Re.match_ size_re true s with
      | None => Return "0"
      | Some m =>
          match Binary64.of_str (group_text 1 m) with
          | Raise e => Raise e
          | Return value =>
              let unit := Str.upper (group_text 2 m) in
              let mult := default 1 (multipliers !! unit) in
              match Binary64.to_int (Binary64.mul value (Binary64.of_int mult)) with
              | Raise e => Raise e
              | Return n => Return (Str.of_int n)
              end
          end
      end
  end.

(** ** The parsed document

    What [BeautifulSoup(html, 'html.parser')] builds, as far as the
    plugin looks at it: tags with a name, attributes and children, and
    the text nodes that [get_text] reports.  A tag is handed around
    together with its ancestors, nearest first, which is what its
    [parent] links give. *)

Module Soup.

#[warnings="-register-all"] Inductive node : Type :=
| Text (s : string)
| Tag (name : string) (attrs : gmap string string) (children : list node).

Record element : Type := Element { self : node; parents : list node }.

(** The node and everything below it, in document order. *)
Fixpoint walk (ps : list node) (n : node) : list element :=
  Element n ps ::
  match n with
  | Text _ => []
  | Tag _ _ cs =>
      (fix walk_all (cs : list node) : list element :=
         match cs with
         | [] => []
         | c :: cs' => walk (n :: ps) c ++ walk_all cs'
         end) cs
  end.

(** [tag.descendants] *)
Definition descendants (t : element) : list element :=
  tail (walk (parents t) (self t)).

Definition has_name (names : list string) (n : node) : bool :=
  match n with
  | Text _ => false
  | Tag name _ _ => bool_decide (name ∈ names)
  end.

Definition attrs_of (n : node) : gmap string string :=
  match n with
  | Text _ => ∅
  | Tag _ attrs _ => attrs
  end.

(** [tag.get(key, default)] *)
Definition get (t : element) (key dflt : string) : string :=
  default dflt (attrs_of (self t) !! key).

(** Is the attribute present with a value that the regular expression
    matches somewhere? *)
Definition attr_matches (attr : string) (r : Re.regex) (n : node) : bool :=
  match attrs_of n !! attr with
  | Some v => bool_decide (is_Some (Re.search r false v))
  | None => false
  end.

(** [tag.find_all(name, attr=regex)]: the descendants called [name]
    whose attribute [attr] the regular expression matches. *)
Definition find_all (t : element) (name attr : string) (r : Re.regex)
    : list element :=
  filter (λ d, has_name [name] (self d) && attr_matches attr r (self d) = true)
    (descendants t).

(** [tag.find(names)]: the first descendant with one of the names. *)
Definition find (t : element) (names : list string) : option element :=
  head (filter (λ d, has_name names (self d) = true) (descendants t)).

(** [tag.find_parent(names)]: the nearest ancestor with one of the
    names; [tag.parent]: the nearest ancestor. *)
Fixpoint find_parent_in (names : list string) (ps : list node) : option element :=
  match ps with
  | [] => None
  | p :: ps' =>
      if has_name names p then Some (Element p ps')
      else find_parent_in names ps'
  end.

Definition find_parent (t : element) (names : list string) : option element :=
  find_parent_in names (parents t).

Definition parent (t : element) : option element :=
  match parents t with
  | [] => None
  | p :: ps' => Some (Element p ps')
  end.

(** The text nodes at and below a node, in document order. *)
Definition strings (t : element) : list string :=
  omap (λ d, match self d with Text s => Some s | Tag _ _ _ => None end)
    (walk (parents t) (self t)).

(** The document holds ASCII text only. *)
Definition isascii (n : node) : bool :=
  forallb Str.isascii (strings (Element n [])).

(** [tag.get_text(separator, strip=True)]: every text node is
    stripped, the empty ones are dropped, the rest is joined. *)
Definition get_text (separator : string) (t : element) : string :=
  Str.join separator
    (filter (λ s, Str.truthy s = true) (Str.strip <$> strings t)).

End Soup.

(** ** [_parse_search_results] *)

Definition hex_lower (c : ascii) : bool :=
  Str.between 97 102 c || Str.isdecimal c.

(** [/md5/[a-f0-9]+], the filter of [find_all]. *)
Definition md5_link_re : Re.regex :=
  Re.Cat (Re.lit "/md5/") (Re.Plus hex_lower).

(** [/md5/([a-f0-9]+)] *)
Definition md5_re : Re.regex :=
  Re.Cat (Re.lit "/md5/") (Re.Group 1 (Re.Plus hex_lower)).

(** [[^|,\n\r]] *)
Definition not_separator (c : ascii) : bool :=
  negb (Ascii.eqb c "|" || Ascii.eqb c "," || Ascii.eqb c "010" || Ascii.eqb c "013").

(** [\bby\s+([^|,\n\r]+)] *)
Definition author_re : Re.regex :=
  Re.Cat Re.WordB
    (Re.Cat (Re.lit "by")
       (Re.Cat (Re.Plus Str.isspace) (Re.Group 1 (Re.Plus not_separator)))).

(** [\b(epub|pdf|mobi|azw3|djvu|txt)\b] *)
Definition format_re : Re.regex :=
  Re.Cat Re.WordB
    (Re.Cat (Re.Group 1 (Re.alts ["epub"; "pdf"; "mobi"; "azw3"; "djvu"; "txt"]))
       Re.WordB).

(** [([\d.]+)\s*(MB|KB|GB|B)\b] *)
Definition size_search_re : Re.regex :=
  Re.Cat (Re.Group 1 (Re.Plus digit_or_dot))
    (Re.Cat (Re.Star Str.isspace)
       (Re.Cat (Re.Group 2 (Re.alts ["MB"; "KB"; "GB"; "B"])) Re.WordB)).

Definition language_names : list string :=
  ["English"; "Spanish"; "French"; "German"; "Italian"; "Portuguese";
   "Dutch"; "Russian"; "Japanese"; "Chinese"].

(** [\b(English|Spanish|...|Chinese)\b] *)
Definition lang_re : Re.regex :=
  Re.Cat Re.WordB (Re.Cat (Re.Group 1 (Re.alts language_names)) Re.WordB).

(** The raw record of one result: a [dict] from field names to strings. *)
Abbreviation book := (gmap string string).

(** Lines 122-141: the optional fields found in the surrounding text. *)
Definition extract_metadata (context_text : string) (book0 : book) : book :=
  let book1 :=
    match Re.search author_re true context_text with
    | Some author_match =>
        <["author" := Str.strip_chars " -" (group_text 1 author_match)]> book0
    | None => book0
    end in
  let book2 :=
    match Re.search format_re true context_text with
    | Some format_match =>
        <["extension" := Str.lower (group_text 1 format_match)]> book1
    | None => book1
    end in
  let book3 :=
    match Re.search size_search_re true context_text with
    | Some size_match =>
        <["size" := group_text 1 size_match +:+ group_text 2 size_match]> book2
    | None => book2
    end in
  match Re.search lang_re true context_text with
  | Some lang_match => <["language" := group_text 1 lang_match]> book3
  | None => book3
  end.

(** Lines 100-111: the container, the context text and the title of a
    link. *)
Definition container_of (link : Soup.element) : option Soup.element :=
  match Soup.find_parent link ["article"; "li"; "div"] with
  | Some c => Some c
  | None => Soup.parent link
  end.

Definition context_text_of (link : Soup.element) : string :=
  match container_of link with
  | Some container => Soup.get_text " " container
  | None => Soup.get_text " " link
  end.

Definition title_of (link : Soup.element) : string :=
  let container := container_of link in
  let context_text := context_text_of link in
  let title := Soup.get_text "" link in
  let title :=
    match container with
    | Some c =>
        if negb (Str.truthy title) then
          match Soup.find c ["h1"; "h2"; "h3"; "strong"] with
          | Some heading => Soup.get_text " " heading
          | None => title
          end
        else title
    | None => title
    end in
  if negb (Str.truthy title) && bool_decide (is_Some container)
  then Str.slice_to 200 context_text
  else title.

(** What one iteration does next. *)
Inductive control : Type := Continue | Break.

(** The state of the loop: the identifiers seen and the records kept. *)
Record parse_state : Type :=
  ParseState { seen_md5 : gset string; books : list book }.

(** The body of the loop over the links, lines 85-146.  None of the
    operations of the body raises in this model, so its handler is
    never entered. *)
Definition parse_link (link : Soup.element) (st : parse_state)
    : parse_state * control :=
  let href := Soup.get link "href" "" in
  if negb (Str.truthy href) || negb (Str.contains "/md5/" href)
  then (st, Continue) else
  match Re.search md5_re false href with
  | None => (st, Continue)
  | Some md5_match =>
      let md5 := group_text 1 md5_match in
      if bool_decide (md5 ∈ seen_md5 st) then (st, Continue) else
      let seen := {[md5]} ∪ seen_md5 st in
      let context_text := context_text_of link in
      let title := title_of link in
      if negb (Str.truthy title) || Nat.ltb (Str.len title) 3
      then (ParseState seen (books st), Continue) else
      let book0 : book :=
        <["md5" := md5]>
          (<["title" := title]>
             (<["link" := if Str.startswith "/" href
                          then BASE_URL +:+ href else href]> ∅)) in
      let books' := books st ++ [extract_metadata context_text book0] in
      (ParseState seen books',
       if Nat.leb 25 (length books') then Break else Continue)
  end.

Fixpoint parse_links (links : list Soup.element) (st : parse_state) : list book :=
  match links with
  | [] => books st
  | link :: rest =>
      match parse_link link st with
      | (st', Continue) => parse_links rest st'
      | (st', Break) => books st'
      end
  end.

Definition md5_links (soup : Soup.element) : list Soup.element :=
  Soup.find_all soup "a" "href" md5_link_re.

(** The argument is the document that [BeautifulSoup(html,
    'html.parser')] builds from [html]; the root has no ancestors. *)
Definition _parse_search_results (soup : Soup.node) : list book :=
  parse_links (md5_links (Soup.Element soup [])) (ParseState ∅ []).

(** ** [_convert_results] *)

Module Entry.
Record t : Type := Make {
  link : string;
  title : string;
  description : string;
  guid : string;
  comments : string;
  files : string;
  size : string;
  category : string;
  grabs : string;
  prefix : string;
  author : string;
  book_title : string;
  language : string;
  format : string;
  pub_ts : option string;
}.
End Entry.

(** The body of the loop over the books, lines 162-201. *)
Definition convert_book (b : book) (cat : string) : outcome Entry.t :=
  let link := default "" (b !! "link") in
  let title := default "Unknown" (b !! "title") in
  let author := default "Unknown" (b !! "author") in
  let file_format := Str.upper (default "" (b !! "extension")) in
  let size_str := default "0MB" (b !! "size") in
  let language := default "Unknown" (b !! "language") in
  match _convert_size_to_bytes (Some size_str) with
  | Raise e => Raise e
  | Return size_bytes =>
      let constructed_title := title +:+ " - " +:+ author in
      let constructed_title :=
        if Str.truthy file_format
        then constructed_title +:+ " (" +:+ file_format +:+ ")"
        else constructed_title in
      let description_parts := [title; author] in
      let description_parts :=
        if Str.truthy language
        then description_parts ++ [language] else description_parts in
      let description_parts :=
        if Str.truthy file_format
        then description_parts ++ [file_format] else description_parts in
      let description := Str.join " | " description_parts in
      Return
        {| Entry.link := link;
           Entry.title := constructed_title;
           Entry.description := description;
           Entry.guid := link;
           Entry.comments := link;
           Entry.files := "1";
           Entry.size := size_bytes;
           Entry.category := cat;
           Entry.grabs := "100";
           Entry.prefix := getprefix;
           Entry.author := author;
           Entry.book_title := title;
           Entry.language := language;
           Entry.format := file_format;
           Entry.pub_ts := None |}
  end.

(** The loop: a book whose conversion raises is skipped by the handler
    of lines 205-207. *)
Fixpoint convert_loop (bs : list book) (cat : string) (results : list Entry.t)
    : list Entry.t :=
  match bs with
  | [] => results
  | b :: rest =>
      match convert_book b cat with
      | Return entry => convert_loop rest cat (results ++ [entry])
      | Raise _ => convert_loop rest cat results
      end
  end.

Definition _convert_results (bs : list book) (cat : string) : list Entry.t :=
  convert_loop bs cat [].

(** ** [search] *)

(** The state of the plugin object that [search] touches. *)
Record plugin : Type := Plugin { last_error : option string }.

Section search.

(** The collaborators: the two page fetchers of [SeleniumHelper], the
    HTML parser and [urllib.parse.urlencode]. *)
Variable get_page_source : string → outcome string.
Variable get_page_source_flaresolverr : string → outcome string.
Variable BeautifulSoup : string → outcome Soup.node.
Variable urlencode : list (string * string) → string.

(** [query] is [None] when the argument is Python's [None].  The call
    returns the result list and the state it leaves behind. *)
Definition search (query : option string) (cat : string) (self : plugin)
    : list Entry.t * plugin :=
  let self := Plugin None in
  match query with
  | None | Some EmptyString => ([], Plugin (Some "Missing query"))
  | Some q =>
      let search_url := BASE_URL +:+ "/search" in
      let full_url := search_url +:+ "?" +:+ urlencode [("q", q)] in
      let fetched :=
        match get_page_source full_url with
        | Return html => Return html
        | Raise selenium_error => get_page_source_flaresolverr full_url
        end in
      match fetched with
      | Raise e => ([], Plugin (Some (str_exn e)))
      | Return html =>
          match BeautifulSoup html with
          | Raise e => ([], Plugin (Some (str_exn e)))
          | Return soup =>
              let results := _convert_results (_parse_search_results soup) cat in
              match results with
              | [] => ([], Plugin (Some "No results returned"))
              | _ => (results, self)
              end
          end
      end
  end.

End search.


(** * Auxiliary definitions for the proofs *)

(** ** The two decisions of the loop body

    [link_md5] is the identifier that lines 86-95 extract from a link,
    if the link passes their guards; [link_book] is the record that
    lines 100-141 build for it, if its title passes the guard of line
    113. *)

Definition link_md5 (link : Soup.element) : option string :=
  let href := Soup.get link "href" "" in
  if negb (Str.truthy href) || negb (Str.contains "/md5/" href) then None
  else group_text 1 <$> Re.search md5_re false href.

Definition link_href (link : Soup.element) : string :=
  let href := Soup.get link "href" "" in
  if Str.startswith "/" href then BASE_URL +:+ href else href.

Definition valid_title (title : string) : bool :=
  Str.truthy title && negb (Nat.ltb (Str.len title) 3).

Definition link_book (link : Soup.element) (md5 : string) : option book :=
  if valid_title (title_of link) then
    Some (extract_metadata (context_text_of link)
            (<["md5" := md5]>
               (<["title" := title_of link]> (<["link" := link_href link]> ∅))))
  else None.

(** The records of the links that are kept when no limit applies: the
    first link of each identifier not yet in [seen], if its title is
    valid. *)
Fixpoint candidates (links : list Soup.element) (seen : gset string) : list book :=
  match links with
  | [] => []
  | link :: rest =>
      match link_md5 link with
      | None => candidates rest seen
      | Some md5 =>
          if bool_decide (md5 ∈ seen) then candidates rest seen
          else option_list (link_book link md5) ++ candidates rest ({[md5]} ∪ seen)
      end
  end.

(** [link] is the first link of [links] that carries the identifier
    [md5]. *)
Definition first_with_md5 (links : list Soup.element) (link : Soup.element)
    (md5 : string) : Prop :=
  ∃ before after,
    links = before ++ link :: after ∧
    link_md5 link = Some md5 ∧
    ∀ l, l ∈ before → link_md5 l ≠ Some md5.

(** ** Sample documents *)

Module Scenario.

Definition anchor (href text : string) : Soup.node :=
  Soup.Tag "a" {["href" := href]} [Soup.Text text].

Definition document (body : list Soup.node) : Soup.node :=
  Soup.Tag "[document]" ∅ body.

(** [<div><a href="/md5/abc123">Great Book</a> by Jane Doe | 2.5MB |
    epub | English</div>] *)
Definition page_a : Soup.node :=
  document
    [Soup.Tag "div" ∅
       [anchor "/md5/abc123" "Great Book";
        Soup.Text " by Jane Doe | 2.5MB | epub | English"]].

Definition book_a : book :=
  <["language" := "English"]>
    (<["size" := "2.5MB"]>
       (<["extension" := "epub"]>
          (<["author" := "Jane Doe"]>
             (<["md5" := "abc123"]>
                (<["title" := "Great Book"]>
                   (<["link" := "https://annas-archive.org/md5/abc123"]> ∅)))))).

(** Two anchors with the same identifier. *)
Definition page_b : Soup.node :=
  document
    [Soup.Tag "div" ∅ [anchor "/md5/abc" "First title"];
     Soup.Tag "div" ∅ [anchor "/md5/abc" "Second title"]].

(** An anchor without text or heading in a container whose text is
    [ab]. *)
Definition page_c : Soup.node :=
  document [Soup.Tag "div" ∅ [Soup.Text "ab"; anchor "/md5/abc" ""]].

(** The first anchor of the identifier has a title of two characters,
    the second one a valid title. *)
Definition page_consumed : Soup.node :=
  document
    [Soup.Tag "div" ∅ [anchor "/md5/abc" "ab"];
     Soup.Tag "div" ∅ [anchor "/md5/abc" "A valid title"]].

Fixpoint replicate_char (n : nat) (c : ascii) : string :=
  match n with
  | O => EmptyString
  | S n' => String c (replicate_char n' c)
  end.

Definition spaces (n : nat) : string := replicate_char n " ".

(** [<div>a   ...   b<a href="/md5/abc"></a></div>] with 300 spaces
    between [a] and [b]: the anchor has no text, the container has no
    heading, and the first 200 characters of the context are [a] and
    199 spaces. *)
Definition page_padded : Soup.node :=
  document
    [Soup.Tag "div" ∅
       [Soup.Text ("a" +:+ spaces 300 +:+ "b"); Soup.Tag "a" {["href" := "/md5/abc"]} []]].

(** [<div><a href="/md5/abc">Plan. B</a></div>]: the size pattern finds
    the token [.B] in the context. *)
Definition page_plan_b : Soup.node :=
  document [Soup.Tag "div" ∅ [anchor "/md5/abc" "Plan. B"]].

(** [<div><a href="/md5/abc">An english edition</a></div>] *)
Definition page_english : Soup.node :=
  document [Soup.Tag "div" ∅ [anchor "/md5/abc" "An english edition"]].

(** A raw record without language and format. *)
Definition book_plain : book :=
  <["md5" := "abc"]>
    (<["title" := "Great Book"]>
       (<["link" := "https://annas-archive.org/md5/abc"]> ∅)).

End Scenario.

(** ** The normaliser, record by record *)

Definition outcome_to_option {A : Type} (o : outcome A) : option A :=
  match o with
  | Return a => Some a
  | Raise _ => None
  end.

(** The size token of a raw record converts without raising. *)
Definition size_converts (b : book) : Prop :=
  ∃ n, _convert_size_to_bytes (Some (default "0MB" (b !! "size"))) = Return n.

(** The conversion of the size token of a raw record returns. *)
Definition converts (b : book) : bool :=
  match _convert_size_to_bytes (Some (default "0MB" (b !! "size"))) with
  | Return _ => true
  | Raise _ => false
  end.

(** The language segment of a description: the language of the raw
    record unless it is empty, [Unknown] when there is none. *)
Definition language_segment (b : book) : list string :=
  match b !! "language" with
  | Some language => if Str.truthy language then [language] else []
  | None => ["Unknown"]
  end.

(** The last segments of a description: the format, if there is one. *)
Definition format_segment (b : book) : list string :=
  let file_format := Str.upper (default "" (b !! "extension")) in
  if Str.truthy file_format then [file_format] else [].

(** ** Texts and matches *)

(** Every character of the text is in the class. *)
Fixpoint all_chars (p : ascii → bool) (s : string) : bool :=
  match s with
  | EmptyString => true
  | String c s' => p c && all_chars p s'
  end.

(** A text is clean when it is empty or starts with a character that
    is not white space. *)
Definition clean (s : string) : Prop :=
  match s with
  | EmptyString => True
  | String c _ => Str.isspace c = false
  end.

(** The text does not start with a character of the class. *)
Definition stops (p : ascii → bool) (s : string) : bool :=
  match s with
  | EmptyString => true
  | String c _ => negb (p c)
  end.

(** The character before the position reached after reading [w]. *)
Fixpoint last_char (prev : option ascii) (w : string) : option ascii :=
  match w with
  | EmptyString => prev
  | String c w' => last_char (Some c) w'
  end.

(** [w] stands between [before] and [after] as a whole word and is
    [name] up to the case of its letters: what the pattern
    [\b(name)\b] matches under [re.I]. *)
Definition word_occurrence (before w after name : string) : Prop :=
  Str.lower w = Str.lower name ∧
  Re.at_boundary (last_char None before) (w +:+ after) = true ∧
  Re.at_boundary (last_char (last_char None before) w) after = true.

(** ** Numbers and size tokens *)

(** [2^l <= num / den], without division. *)
Definition ge_pow2 (l num den : Z) : Prop :=
  2 ^ Z.max 0 l * den ≤ num * 2 ^ Z.max 0 (- l).

(** The value [m * 2^j], written as a fraction [num / den]. *)
Definition is_scaled (num den m j : Z) : Prop :=
  num * 2 ^ Z.max 0 (- j) = m * 2 ^ Z.max 0 j * den.

(** The binary64 values: [m * 2^e] with a mantissa below [2^53]; the
    exponent is bounded so that the product with a multiplier up to
    [2^30] is a binary64 value as well. *)
Definition representable (num den : Z) : Prop :=
  ∃ m e, 0 ≤ m < 2 ^ 53 ∧ -1074 ≤ e ≤ 941 ∧ is_scaled num den m e.

(** The number that a text of decimal digits denotes. *)
Fixpoint digits_value (acc : Z) (w : string) : Z :=
  match w with
  | EmptyString => acc
  | String c w' => digits_value (10 * acc + (Z.of_nat (Str.code c) - 48)) w'
  end.

Definition decimal_value (w : string) : Z := digits_value 0 w.

(** A number text: digits, then possibly a dot and more digits. *)
Definition number_text (ip : string) (ofp : option string) : string :=
  ip +:+ match ofp with Some fp => "." +:+ fp | None => "" end.

(** The table of the units as the specification gives it: B=1,
    KB=1024, MB=1024^2, GB=1024^3. *)
Definition unit_multipliers : list (string * Z) :=
  [("B", 1); ("KB", 1024); ("MB", 1024 ^ 2); ("GB", 1024 ^ 3)].

(** The units as the pattern accepts them, in either case. *)
Definition unit_spellings : list (string * Z) :=
  [("B", 1); ("b", 1);
   ("KB", 1024); ("Kb", 1024); ("kB", 1024); ("kb", 1024);
   ("MB", 1024 ^ 2); ("Mb", 1024 ^ 2); ("mB", 1024 ^ 2); ("mb", 1024 ^ 2);
   ("GB", 1024 ^ 3); ("Gb", 1024 ^ 3); ("gB", 1024 ^ 3); ("gb", 1024 ^ 3)].

(** Membership in an explicit list. *)
Ltac elem_of_list :=
  repeat first [apply list_elem_of_here | apply list_elem_of_further].

(** ** Further definitions: the remaining methods and auxiliary notions *)


(** The identifier that the identifier pattern finds in a link. *)
Definition md5_of_link (l : option string) : option string :=
  l ≫= λ href, group_text 1 <$> Re.search md5_re false href.

(** A float that is not negative: a finite value with a mantissa that
    is not negative, or infinity. *)
Definition float_nonneg (x : Binary64.float) : Prop :=
  match x with
  | Binary64.Finite m _ => 0 ≤ m
  | Binary64.Inf => True
  | Binary64.NaN => False
  end.

(** The format names of the format pattern. *)
Definition format_names : list string :=
  ["epub"; "pdf"; "mobi"; "azw3"; "djvu"; "txt"].

(** The characters that [strip(" -")] removes. *)
Definition space_or_hyphen (c : ascii) : bool := Str.mem c " -".

(** [getcat], [gettestquery] and the module-level [getmyprefix]. *)
Definition getcat : list string := ["7020"].
Definition gettestquery : string := "fiction".
Definition getmyprefix : string := "annas_archive".

(** The address that [search] fetches for a query. *)
Definition full_url (urlencode : list (string * string) → string) (q : string)
    : string :=
  (BASE_URL +:+ "/search") +:+ "?" +:+ urlencode [("q", q)].

(** A document with [n] results, each in its own container, with
    the identifiers [a], [aa], [aaa] and so on. *)
Definition numbered_result (i : nat) : Soup.node :=
  Soup.Tag "div" ∅
    [Scenario.anchor ("/md5/" +:+ Scenario.replicate_char (S i) "a") "Some title"].

Definition page_many (n : nat) : Soup.node :=
  Scenario.document (numbered_result <$> seq 0 n).

(** Collaborators for the examples: a fetcher that fails, a fetcher
    that returns a page, a parser that returns a document, and an
    encoder for a single parameter. *)
Definition fetch_fails (message : string) : string → outcome string :=
  λ _, Raise (Exception message).
Definition fetch_page (html : string) : string → outcome string :=
  λ _, Return html.
Definition parse_as (soup : Soup.node) : string → outcome Soup.node :=
  λ _, Return soup.
Definition urlencode_plain (params : list (string * string)) : string :=
  match params with
  | [(k, v)] => k +:+ "=" +:+ v
  | _ => ""
  end.


(** * Checks of the embedding on the scenarios of the specification *)

Example parse_a : _parse_search_results Scenario.page_a = [Scenario.book_a].
Proof. vm_compute. reflexivity. Qed.

Example convert_a :
  _convert_results [Scenario.book_a] "7020" =
    [ {| Entry.link := "https://annas-archive.org/md5/abc123";
         Entry.title := "Great Book - Jane Doe (EPUB)";
         Entry.description := "Great Book | Jane Doe | English | EPUB";
         Entry.guid := "https://annas-archive.org/md5/abc123";
         Entry.comments := "https://annas-archive.org/md5/abc123";
         Entry.files := "1";
         Entry.size := "2621440";
         Entry.category := "7020";
         Entry.grabs := "100";
         Entry.prefix := "annas_archive";
         Entry.author := "Jane Doe";
         Entry.book_title := "Great Book";
         Entry.language := "English";
         Entry.format := "EPUB";
         Entry.pub_ts := None |} ].
Proof. vm_compute. reflexivity. Qed.

Example parse_b :
  (λ b : book, b !! "title") <$> _parse_search_results Scenario.page_b
  = [Some "First title"].
Proof. vm_compute. reflexivity. Qed.

Example parse_c : _parse_search_results Scenario.page_c = [].
Proof. vm_compute. reflexivity. Qed.

Example size_examples :
  _convert_size_to_bytes (Some "2.5MB") = Return "2621440" ∧
  _convert_size_to_bytes (Some "10  kb") = Return "10240" ∧
  _convert_size_to_bytes (Some "0.1KB") = Return "102" ∧
  _convert_size_to_bytes (Some "garbage") = Return "0" ∧
  _convert_size_to_bytes (Some "") = Return "0" ∧
  _convert_size_to_bytes None = Return "0".
Proof. vm_compute. repeat split. Qed.

(** The rounding of [float]: one tenth, one third, the largest finite
    value and the first value that overflows. *)
Example round_values :
  Binary64.round 1 10 = Binary64.Finite 7205759403792794 (-56) ∧
  Binary64.round 1 3 = Binary64.Finite 6004799503160661 (-54) ∧
  Binary64.round (2 ^ 1024 - 2 ^ 970 - 1) 1 = Binary64.Finite (2 ^ 53 - 1) 971 ∧
  Binary64.round (2 ^ 1024 - 2 ^ 970) 1 = Binary64.Inf.
Proof. vm_compute. repeat split. Qed.

(** A number of 401 digits is infinite as a [float], and [int] raises. *)
Example size_overflow :
  _convert_size_to_bytes (Some ("1" +:+ Scenario.replicate_char 400 "0" +:+ "B"))
  = Raise (OverflowError "cannot convert float infinity to integer").
Proof. vm_compute. reflexivity. Qed.

(** * The result parser *)

Section parser.
Implicit Types (link : Soup.element) (links : list Soup.element).
Implicit Types (st : parse_state) (b : book) (seen : gset string).

(** The loop body, case by case. *)
Lemma parse_link_spec link st :
  parse_link link st =
    match link_md5 link with
    | None => (st, Continue)
    | Some md5 =>
        if bool_decide (md5 ∈ seen_md5 st) then (st, Continue)
        else match link_book link md5 with
             | None => (ParseState ({[md5]} ∪ seen_md5 st) (books st), Continue)
             | Some b =>
                 (ParseState ({[md5]} ∪ seen_md5 st) (books st ++ [b]),
                  if Nat.leb 25 (length (books st ++ [b])) then Break else Continue)
             end
    end.
Proof.
  unfold parse_link, link_md5, link_book, valid_title, link_href.
  destruct (negb (Str.truthy _) || negb (Str.contains _ _)); [done|].
  destruct (Re.search md5_re false _) as [m|]; simpl; [|done].
  case_bool_decide; [done|].
  destruct (Str.truthy (title_of link)); simpl; [|done].
  by destruct (Nat.ltb _ 3).
Qed.

(** The loop keeps the first 25 of the candidate records. *)
Lemma parse_links_candidates links st :
  (length (books st) < 25)%nat →
  parse_links links st = take 25 (books st ++ candidates links (seen_md5 st)).
Proof.
  revert st. induction links as [|link rest IH]; intros st Hlen.
  { cbn. rewrite app_nil_r, take_ge; [done|lia]. }
  cbn [parse_links candidates]. rewrite parse_link_spec.
  destruct (link_md5 link) as [md5|]; [|by apply IH].
  case_bool_decide; [by apply IH|].
  destruct (link_book link md5) as [b|]; cbn [option_list].
  - rewrite (assoc_L (++) (books st) [b]).
    destruct (Nat.leb 25 (length (books st ++ [b]))) eqn:Hcap.
    + apply Nat.leb_le in Hcap. rewrite length_app in Hcap. simpl in Hcap.
      rewrite take_app_length'; [done|]. rewrite length_app. simpl. lia.
    + apply Nat.leb_gt in Hcap. by rewrite IH.
  - by rewrite IH.
Qed.

Lemma parse_search_results_candidates (soup : Soup.node) :
  _parse_search_results soup =
    take 25 (candidates (md5_links (Soup.Element soup [])) ∅).
Proof. unfold _parse_search_results. rewrite parse_links_candidates; simpl; [done|lia]. Qed.

(** The optional fields leave the identifier and the title alone. *)
Lemma extract_metadata_md5 ctx b : extract_metadata ctx b !! "md5" = b !! "md5".
Proof.
  unfold extract_metadata.
  repeat (destruct (Re.search _ true ctx); rewrite ?lookup_insert_ne by done); done.
Qed.

Lemma extract_metadata_title ctx b : extract_metadata ctx b !! "title" = b !! "title".
Proof.
  unfold extract_metadata.
  repeat (destruct (Re.search _ true ctx); rewrite ?lookup_insert_ne by done); done.
Qed.

Lemma link_book_md5 link md5 b : link_book link md5 = Some b → b !! "md5" = Some md5.
Proof.
  unfold link_book. destruct (valid_title _); [|done]. intros [= <-].
  by rewrite extract_metadata_md5, lookup_insert_eq.
Qed.

Lemma link_book_title link md5 b :
  link_book link md5 = Some b →
  b !! "title" = Some (title_of link) ∧ valid_title (title_of link) = true.
Proof.
  unfold link_book. destruct (valid_title _) eqn:Hv; [|done]. intros [= <-].
  rewrite extract_metadata_title, lookup_insert_ne, lookup_insert_eq; done.
Qed.

(** Every candidate is the record of the first link of its identifier,
    and that identifier was not seen before. *)
Lemma candidates_first links seen b :
  b ∈ candidates links seen →
  ∃ link md5, first_with_md5 links link md5 ∧ (md5 ∉ seen) ∧
              link_book link md5 = Some b.
Proof.
  revert seen. induction links as [|l rest IH]; intros seen; simpl.
  { by intros ?%elem_of_nil. }
  assert (∀ seen', seen ⊆ seen' →
            (∀ md5, link_md5 l = Some md5 → md5 ∈ seen') →
            b ∈ candidates rest seen' →
            ∃ link md5, first_with_md5 (l :: rest) link md5 ∧ (md5 ∉ seen) ∧
                        link_book link md5 = Some b) as Hrest.
  { intros seen' Hsub Hl (link & md5 & (pre & post & -> & Hmd5 & Hpre) & Hnot & Hb)%IH.
    exists link, md5. split; [|split; [set_solver|done]].
    exists (l :: pre), post. split; [done|]. split; [done|].
    intros l' [->|?]%elem_of_cons; [|by apply Hpre].
    intros Heq. by apply Hnot, Hl. }
  destruct (link_md5 l) as [md5|] eqn:Hmd5.
  - case_bool_decide as Hseen.
    + apply Hrest; [done|]. by intros ? [= <-].
    + intros [Hb|Hb]%elem_of_app.
      * exists l, md5. split; [|split; [done|]].
        -- exists [], rest. split; [done|]. split; [done|]. by intros ? ?%elem_of_nil.
        -- destruct (link_book l md5); simpl in Hb; [|by apply elem_of_nil in Hb].
           by apply list_elem_of_singleton in Hb as ->.
      * revert Hb. apply Hrest; [set_solver|]. intros ? [= <-]. set_solver.
  - apply Hrest; [done|]. by intros ? [=].
Qed.

(** The first link of an identifier is unique. *)
Lemma first_with_md5_unique links link1 link2 md5 :
  first_with_md5 links link1 md5 → first_with_md5 links link2 md5 → link1 = link2.
Proof.
  intros (pre1 & post1 & -> & H1 & Hpre1) (pre2 & post2 & Heq & H2 & Hpre2).
  revert pre2 Heq Hpre2. induction pre1 as [|x pre1 IH]; intros [|y pre2] Heq Hpre2;
    simplify_eq/=.
  - done.
  - exfalso. eapply Hpre2; [apply list_elem_of_here|done].
  - exfalso. eapply Hpre1; [apply list_elem_of_here|done].
  - eapply IH; [|done|].
    + intros l ?. apply Hpre1. by apply list_elem_of_further.
    + intros l ?. apply Hpre2. by apply list_elem_of_further.
Qed.

(** The identifiers of the candidates are pairwise distinct. *)
Lemma candidates_NoDup links seen :
  NoDup ((λ b : book, b !! "md5") <$> candidates links seen).
Proof.
  revert seen. induction links as [|l rest IH]; intros seen; simpl; [constructor|].
  destruct (link_md5 l) as [md5|] eqn:Hmd5; [|done].
  case_bool_decide; [done|].
  rewrite fmap_app. apply NoDup_app. split; [|split; [|done]].
  - destruct (link_book l md5); simpl; [apply NoDup_singleton|constructor].
  - intros o Ho (b & -> & (link & md5' & _ & Hnot & Hb)%candidates_first)%list_elem_of_fmap.
    destruct (link_book l md5) as [b0|] eqn:Hb0; simpl in Ho; [|by apply elem_of_nil in Ho].
    apply list_elem_of_singleton in Ho.
    rewrite (link_book_md5 _ _ _ Hb0), (link_book_md5 _ _ _ Hb) in Ho.
    set_solver.
Qed.

End parser.

(** ** Titles *)

Lemma lstrip_by_clean p s :
  match Str.lstrip_by p s with EmptyString => True | String c _ => p c = false end.
Proof. induction s as [|c s IH]; simpl; [done|]. by destruct (p c) eqn:?. Qed.

Lemma rstrip_by_head p c s :
  p c = false → ∃ r, Str.rstrip_by p (String c s) = String c r.
Proof. intros Hc. simpl. destruct (Str.rstrip_by p s); rewrite ?Hc; eauto. Qed.

Lemma strip_clean s : clean (Str.strip s).
Proof.
  unfold Str.strip, Str.strip_by.
  pose proof (lstrip_by_clean Str.isspace s) as H.
  destruct (Str.lstrip_by Str.isspace s) as [|c r]; [done|].
  destruct (rstrip_by_head _ c r H) as [r' ->]. done.
Qed.

(** A clean text that is not empty stays so when stripped. *)
Lemma strip_truthy s : clean s → Str.truthy s = true → Str.strip s ≠ "".
Proof.
  destruct s as [|c s]; [done|]. simpl. intros Hc _.
  unfold Str.strip, Str.strip_by. simpl. rewrite Hc.
  destruct (rstrip_by_head Str.isspace c s Hc) as [r ->]. done.
Qed.

Lemma append_clean s1 s2 : Str.truthy s1 = true → clean s1 → clean (s1 +:+ s2).
Proof. by destruct s1. Qed.

Lemma join_clean sep parts :
  Forall (λ s, Str.truthy s = true ∧ clean s) parts → clean (Str.join sep parts).
Proof.
  intros [|s rest [Ht Hc] _]; [done|]. simpl.
  destruct rest; [done|]. by apply append_clean.
Qed.

Lemma slice_to_clean n s : clean s → clean (Str.slice_to n s).
Proof. by destruct n, s. Qed.

Lemma get_text_clean sep t : clean (Soup.get_text sep t).
Proof.
  unfold Soup.get_text. apply join_clean, Forall_forall.
  intros s [Ht (s0 & -> & _)%list_elem_of_fmap]%list_elem_of_filter.
  split; [done|apply strip_clean].
Qed.

Lemma title_of_clean link : clean (title_of link).
Proof.
  unfold title_of, context_text_of.
  destruct (container_of link) as [c|]; cbn -[Str.slice_to Soup.get_text].
  - rewrite andb_true_r.
    destruct (Str.truthy (Soup.get_text "" link)) eqn:Ht;
      cbn -[Str.slice_to Soup.get_text].
    { rewrite Ht. apply get_text_clean. }
    destruct (Soup.find c _) as [heading|].
    + destruct (Str.truthy (Soup.get_text " " heading));
        cbn -[Str.slice_to Soup.get_text];
        [|apply slice_to_clean]; apply get_text_clean.
    + rewrite Ht. apply slice_to_clean, get_text_clean.
  - rewrite andb_false_r. apply get_text_clean.
Qed.

Lemma valid_title_false title :
  valid_title title = false ↔ title = "" ∨ (Str.len title < 3)%nat.
Proof.
  unfold valid_title. destruct title as [|c s]; simpl; [naive_solver|].
  destruct (Nat.ltb _ 3) eqn:Hl; simpl.
  - apply Nat.ltb_lt in Hl. naive_solver.
  - apply Nat.ltb_ge in Hl. split; [done|]. intros [?|?]; [done|]. unfold Str.len in *. simpl in *. lia.
Qed.

Lemma valid_title_true title :
  valid_title title = true → Str.truthy title = true ∧ (3 ≤ Str.len title)%nat.
Proof.
  unfold valid_title. intros [? Hl%negb_true_iff]%andb_true_iff.
  apply Nat.ltb_ge in Hl. done.
Qed.

Lemma link_book_None link md5 :
  valid_title (title_of link) = false → link_book link md5 = None.
Proof. unfold link_book. by intros ->. Qed.

(** * The claims about the result parser *)

(** C6: for every document, [_parse_search_results] returns at most
    25 records: the loop keeps the first 25 of the records of the
    accepted links and stops there. *)
Theorem parse_search_results_at_most_25 (soup : Soup.node) :
  (length (_parse_search_results soup) ≤ 25)%nat ∧
  _parse_search_results soup =
    take 25 (candidates (md5_links (Soup.Element soup [])) ∅).
Proof.
  rewrite parse_search_results_candidates. split; [|done].
  rewrite length_take. lia.
Qed.

(** C8: for every document, no two records returned by
    [_parse_search_results] carry the same [md5], and the record of an
    identifier is the one built from the first link, in document
    order, that carries this identifier. *)
Theorem parse_search_results_unique_md5 (soup : Soup.node) :
  NoDup ((λ b : book, b !! "md5") <$> _parse_search_results soup) ∧
  ∀ b, b ∈ _parse_search_results soup →
    ∃ link md5,
      first_with_md5 (md5_links (Soup.Element soup [])) link md5 ∧
      b !! "md5" = Some md5 ∧
      link_book link md5 = Some b.
Proof.
  rewrite parse_search_results_candidates. split.
  - rewrite fmap_take. eapply sublist_NoDup; [apply candidates_NoDup|apply sublist_take].
  - intros b Hb%subseteq_take.
    apply candidates_first in Hb as (link & md5 & Hfirst & _ & Hb).
    exists link, md5. eauto using link_book_md5.
Qed.

(** C10: the identifier of a link is added to the seen set before its
    title is checked.  So when the first link that carries an
    identifier is discarded because its title is empty or shorter than
    3 characters, no record of the result carries this identifier. *)
Theorem discarded_title_consumes_md5 (soup : Soup.node) link md5 :
  first_with_md5 (md5_links (Soup.Element soup [])) link md5 →
  title_of link = "" ∨ (Str.len (title_of link) < 3)%nat →
  (∀ st, md5 ∉ seen_md5 st →
     parse_link link st = (ParseState ({[md5]} ∪ seen_md5 st) (books st), Continue)) ∧
  ∀ b, b ∈ _parse_search_results soup → b !! "md5" ≠ Some md5.
Proof.
  intros Hfirst Htitle%valid_title_false. split.
  - intros st Hseen. rewrite parse_link_spec.
    destruct Hfirst as (_ & _ & _ & -> & _).
    rewrite bool_decide_eq_false_2 by done. by rewrite link_book_None.
  - rewrite parse_search_results_candidates. intros b Hb%subseteq_take Hmd5.
    apply candidates_first in Hb as (link' & md5' & Hfirst' & _ & Hb).
    rewrite (link_book_md5 _ _ _ Hb) in Hmd5. injection Hmd5 as ->.
    rewrite (first_with_md5_unique _ _ _ _ Hfirst' Hfirst) in Hb.
    by rewrite link_book_None in Hb.
Qed.

(** The first anchor of [page_consumed] has the title [ab]: its
    identifier is used up and the second anchor gives no record. *)
Lemma discarded_title_consumes_md5_witness :
  let link :=
    Soup.Element (Scenario.anchor "/md5/abc" "ab")
      [Soup.Tag "div" ∅ [Scenario.anchor "/md5/abc" "ab"]; Scenario.page_consumed] in
  (∀ st, "abc" ∉ seen_md5 st →
     parse_link link st = (ParseState ({["abc"]} ∪ seen_md5 st) (books st), Continue)) ∧
  ∀ b, b ∈ _parse_search_results Scenario.page_consumed → b !! "md5" ≠ Some "abc".
Proof.
  intros link. apply (discarded_title_consumes_md5 Scenario.page_consumed link "abc").
  - eexists [], _. split; [vm_compute; reflexivity|].
    split; [vm_compute; reflexivity|]. by intros ? ?%elem_of_nil.
  - right. vm_compute. lia.
Defined.

(** The check of line 113 on the title as derived: every record
    returned by [_parse_search_results] has a title of at least 3
    characters that is not empty after trimming; a candidate whose
    title is empty or shorter than 3 characters is discarded: it adds
    no record and the loop goes on. *)
Lemma parse_search_results_titles (soup : Soup.node) :
  (∀ b, b ∈ _parse_search_results soup →
     ∃ title, b !! "title" = Some title ∧
              (3 ≤ Str.len title)%nat ∧ Str.strip title ≠ "") ∧
  (∀ link st,
     title_of link = "" ∨ (Str.len (title_of link) < 3)%nat →
     books (parse_link link st).1 = books st ∧ (parse_link link st).2 = Continue).
Proof.
  split.
  - rewrite parse_search_results_candidates. intros b Hb%subseteq_take.
    apply candidates_first in Hb as (link & md5 & _ & _ & Hb).
    apply link_book_title in Hb as [Hb [Ht Hlen]%valid_title_true].
    exists (title_of link). split; [done|]. split; [done|].
    by apply strip_truthy; [apply title_of_clean|].
  - intros link st Htitle%valid_title_false. rewrite parse_link_spec.
    destruct (link_md5 link) as [md5|]; [|done].
    case_bool_decide; [done|]. by rewrite link_book_None.
Qed.

Lemma parse_search_results_titles_witness :
  let link :=
    Soup.Element (Scenario.anchor "/md5/abc" "")
      [Soup.Tag "div" ∅ [Soup.Text "ab"; Scenario.anchor "/md5/abc" ""]; Scenario.page_c] in
  (title_of link = "" ∨ (Str.len (title_of link) < 3)%nat) ∧
  ∀ st, books (parse_link link st).1 = books st ∧ (parse_link link st).2 = Continue.
Proof.
  intros link.
  assert (title_of link = "" ∨ (Str.len (title_of link) < 3)%nat) as H.
  { right. vm_compute. lia. }
  split; [exact H|]. intros st.
  exact (proj2 (parse_search_results_titles Scenario.page_c) link st H).
Defined.


(** * The normaliser *)

Lemma convert_loop_spec (bs : list book) cat results :
  convert_loop bs cat results =
    results ++ omap (λ b, outcome_to_option (convert_book b cat)) bs.
Proof.
  revert results. induction bs as [|b rest IH]; intros results; simpl.
  { by rewrite app_nil_r. }
  destruct (convert_book b cat) as [entry|e]; simpl; [|done].
  by rewrite IH, <-(assoc_L (++)).
Qed.

Lemma convert_results_spec (bs : list book) cat :
  _convert_results bs cat = omap (λ b, outcome_to_option (convert_book b cat)) bs.
Proof. unfold _convert_results. by rewrite convert_loop_spec. Qed.

(** A record is converted unless its size token makes the conversion
    raise. *)
Lemma convert_book_Return (b : book) cat :
  size_converts b → ∃ entry, convert_book b cat = Return entry.
Proof. intros [n Hn]. unfold convert_book. rewrite Hn. eauto. Qed.

Lemma convert_book_description (b : book) cat entry :
  convert_book b cat = Return entry →
  Entry.description entry =
    Str.join " | "
      ([default "Unknown" (b !! "title"); default "Unknown" (b !! "author")]
       ++ (let language := default "Unknown" (b !! "language") in
           if Str.truthy language then [language] else [])
       ++ format_segment b).
Proof.
  unfold convert_book, format_segment.
  destruct (_convert_size_to_bytes _) as [n|e]; [|done]. intros [= <-].
  cbn [Entry.description].
  destruct (Str.truthy (default "Unknown" (b !! "language")));
    destruct (Str.truthy (Str.upper _)); reflexivity.
Qed.

(** C3, amended: the description made by [_convert_results] for a raw
    record is the join with [" | "] of its title, its author, its
    language segment and its format segment.  The language segment is
    the language of the raw record, is left out when that language is
    the empty text, and is [Unknown] when the raw record has no
    language; the format segment is the format in upper case, left out
    when the raw record has no format or an empty one. *)
Theorem convert_results_description (bs : list book) cat entry :
  entry ∈ _convert_results bs cat →
  ∃ b, b ∈ bs ∧ convert_book b cat = Return entry ∧
    Entry.description entry =
      Str.join " | "
        ([default "Unknown" (b !! "title"); default "Unknown" (b !! "author")]
         ++ language_segment b ++ format_segment b).
Proof.
  rewrite convert_results_spec. intros (b & Hb & Hentry)%list_elem_of_omap.
  exists b. split; [done|].
  destruct (convert_book b cat) as [entry'|] eqn:Hc; simplify_eq/=.
  split; [done|]. rewrite (convert_book_description _ _ _ Hc).
  unfold language_segment. by destruct (b !! "language").
Qed.

Lemma convert_results_description_witness :
  ∃ b, b ∈ [Scenario.book_a] ∧
    Entry.description
      {| Entry.link := "https://annas-archive.org/md5/abc123";
         Entry.title := "Great Book - Jane Doe (EPUB)";
         Entry.description := "Great Book | Jane Doe | English | EPUB";
         Entry.guid := "https://annas-archive.org/md5/abc123";
         Entry.comments := "https://annas-archive.org/md5/abc123";
         Entry.files := "1";
         Entry.size := "2621440";
         Entry.category := "7020";
         Entry.grabs := "100";
         Entry.prefix := "annas_archive";
         Entry.author := "Jane Doe";
         Entry.book_title := "Great Book";
         Entry.language := "English";
         Entry.format := "EPUB";
         Entry.pub_ts := None |} =
      Str.join " | "
        ([default "Unknown" (b !! "title"); default "Unknown" (b !! "author")]
         ++ language_segment b ++ format_segment b).
Proof.
  destruct (convert_results_description [Scenario.book_a] "7020" _
              ltac:(rewrite convert_a; apply list_elem_of_here))
    as (b & Hb & _ & Hdescr).
  by exists b.
Defined.

(** The claim C3 as stated fails: a raw record without language gets
    a description with a language segment. *)
Lemma description_without_language :
  Scenario.book_plain !! "language" = None ∧
  ∃ entry, _convert_results [Scenario.book_plain] "7020" = [entry] ∧
    Entry.description entry = "Great Book | Unknown | Unknown" ∧
    Entry.description entry ≠ Str.join " | " ["Great Book"; "Unknown"].
Proof.
  split; [vm_compute; reflexivity|]. eexists. split; [vm_compute; reflexivity|].
  split; [vm_compute; reflexivity|]. vm_compute. discriminate.
Qed.

Lemma converts_spec (b : book) cat :
  (converts b = true ∧ ∃ entry, convert_book b cat = Return entry) ∨
  (converts b = false ∧ ∃ e, convert_book b cat = Raise e).
Proof.
  unfold converts, convert_book.
  destruct (_convert_size_to_bytes _) as [n|e]; eauto.
Qed.

(** C4, amended: [_convert_results] converts the raw records in order
    and returns exactly one record for each raw record whose size
    conversion does not raise, and none for the others: the result
    corresponds one to one, in order, to the raw records that convert.
    It returns exactly one record per raw record, in the same order,
    when the size token of every raw record converts. *)
Theorem convert_results_one_to_one (bs : list book) cat :
  Forall2 (λ b entry, convert_book b cat = Return entry)
    (filter (λ b, converts b = true) bs) (_convert_results bs cat) ∧
  (Forall size_converts bs →
     Forall2 (λ b entry, convert_book b cat = Return entry)
       bs (_convert_results bs cat)).
Proof.
  rewrite convert_results_spec. split.
  - induction bs as [|b rest IH]; [constructor|].
    rewrite filter_cons. cbn [omap list_omap].
    destruct (converts_spec b cat) as [[Hb [entry Hc]]|[Hb [e Hc]]]; rewrite Hc; simpl.
    + rewrite decide_True by done. by constructor.
    + rewrite decide_False; [done|]. by rewrite Hb.
  - induction 1 as [|b rest [entry Hc]%(convert_book_Return _ cat) _ IH]; simpl.
    { constructor. }
    rewrite Hc. simpl. by constructor.
Qed.

Lemma convert_results_one_to_one_witness :
  Forall size_converts [Scenario.book_a; Scenario.book_plain] ∧
  Forall2 (λ b entry, convert_book b "7020" = Return entry)
    [Scenario.book_a; Scenario.book_plain]
    (_convert_results [Scenario.book_a; Scenario.book_plain] "7020").
Proof.
  assert (Forall size_converts [Scenario.book_a; Scenario.book_plain]) as H.
  { repeat constructor; eexists; vm_compute; reflexivity. }
  split; [exact H|].
  exact (proj2 (convert_results_one_to_one _ "7020") H).
Defined.

(** The claim C4 as stated fails: the parser finds the size token
    [.B] in [page_plan_b], the conversion of [.] to a number raises and
    the record is dropped. *)
Lemma parsed_record_dropped :
  ∃ b, _parse_search_results Scenario.page_plan_b = [b] ∧
       b !! "size" = Some ".B" ∧
       _convert_results [b] "7020" = [].
Proof.
  eexists. split; [vm_compute; reflexivity|].
  split; vm_compute; reflexivity.
Qed.

(** * The entry point *)

(** C9: for every category, [search] with an empty or missing query
    returns the empty list, does not raise, and leaves ["Missing
    query"] as the last error. *)
Theorem search_missing_query
    (get_page_source get_page_source_flaresolverr : string → outcome string)
    (BeautifulSoup : string → outcome Soup.node)
    (urlencode : list (string * string) → string)
    (cat : string) (self : plugin) :
  search get_page_source get_page_source_flaresolverr BeautifulSoup urlencode
    None cat self = ([], Plugin (Some "Missing query")) ∧
  search get_page_source get_page_source_flaresolverr BeautifulSoup urlencode
    (Some "") cat self = ([], Plugin (Some "Missing query")).
Proof. split; reflexivity. Qed.

(** * Texts *)

Lemma append_cons c s t : String c s +:+ t = String c (s +:+ t).
Proof. reflexivity. Qed.

Lemma append_nil_l s : "" +:+ s = s.
Proof. reflexivity. Qed.

Lemma append_nil_r s : s +:+ "" = s.
Proof. induction s as [|c s IH]; [done|]. by rewrite append_cons, IH. Qed.

Lemma append_assoc s t u : (s +:+ t) +:+ u = s +:+ t +:+ u.
Proof. induction s as [|c s IH]; [done|]. by rewrite !append_cons, IH. Qed.

Lemma length_append s t :
  String.length (s +:+ t) = (String.length s + String.length t)%nat.
Proof. induction s as [|c s IH]; [done|]. rewrite append_cons. simpl. by rewrite IH. Qed.

Lemma slice_to_append s t : Str.slice_to (String.length s) (s +:+ t) = s.
Proof. induction s as [|c s IH]; [by destruct t|]. rewrite append_cons. simpl. by rewrite IH. Qed.

Lemma consumed_append w s : Re.consumed (w +:+ s) s = w.
Proof.
  unfold Re.consumed. rewrite length_append.
  replace (String.length w + String.length s - String.length s)%nat
    with (String.length w) by lia.
  apply slice_to_append.
Qed.

Lemma all_chars_append p s t :
  all_chars p (s +:+ t) = all_chars p s && all_chars p t.
Proof.
  induction s as [|c s IH]; [done|]. rewrite append_cons. simpl.
  by rewrite IH, andb_assoc.
Qed.

Lemma stops_append p s t :
  Str.truthy s = true → stops p (s +:+ t) = stops p s.
Proof. by destruct s. Qed.

(** * Matching *)

Section matching.
Context {R : Type}.
Implicit Types (k : option ascii → string → Re.captures → option R).

(** A greedy repetition that can read all of [w] and no further, and
    whose continuation then succeeds, stops right after [w]. *)
Lemma rep_greedy p prev w s (k : option ascii → string → option R) r :
  all_chars p w = true → stops p s = true →
  k (last_char prev w) s = Some r →
  Re.rep p prev (w +:+ s) k = Some r.
Proof.
  revert prev. induction w as [|c w IH]; intros prev Hall Hstop Hk.
  - rewrite append_nil_l. simpl in Hk.
    destruct s as [|x s]; simpl; [done|]. simpl in Hstop.
    apply negb_true_iff in Hstop. by rewrite Hstop.
  - simpl in Hall. apply andb_true_iff in Hall as [Hc Hall].
    rewrite append_cons. simpl. rewrite Hc.
    by rewrite (IH (Some c) Hall Hstop Hk).
Qed.

(** What a successful match of a literal has read. *)
Lemma exec_lit_inv w prev s caps k r :
  Re.exec (Re.lit w) true prev s caps k = Some r →
  ∃ w' s', s = w' +:+ s' ∧ Str.lower w' = Str.lower w ∧
           k (last_char prev w') s' caps = Some r.
Proof.
  revert prev s. induction w as [|c w IH]; intros prev s.
  - simpl. intros Hk. exists "", s. split; [done|]. split; [done|].
    destruct s; simpl in Hk; done.
  - assert (∀ k', (∀ prev' s', k' prev' s' caps = Some r → ∃ w' s'',
               s' = w' +:+ s'' ∧ Str.lower w' = Str.lower w ∧
               k (last_char prev' w') s'' caps = Some r) →
            Re.exec (Re.Chr c) true prev s caps k' = Some r →
            ∃ w' s', s = w' +:+ s' ∧ Str.lower w' = Str.lower (String c w) ∧
                     k (last_char prev w') s' caps = Some r) as Hchr.
    { intros k' Hk'. simpl. destruct s as [|x s]; [done|].
      unfold Re.chr_eq. destruct (Ascii.eqb _ _) eqn:Heq; [|done].
      apply Ascii.eqb_eq in Heq.
      intros (w' & s'' & -> & Hlow & Hk)%Hk'.
      exists (String x w'), s''. split; [done|]. split; [|done].
      unfold Str.lower in *. simpl. by rewrite Hlow, Heq. }
    destruct w as [|c' w].
    + apply Hchr. intros prev' s' Hk. exists "", s'. done.
    + change (Re.lit (String c (String c' w)))
        with (Re.Cat (Re.Chr c) (Re.lit (String c' w))).
      intros H.
      apply (Hchr (λ prev' s' caps',
                   Re.exec (Re.lit (String c' w)) true prev' s' caps' k)); [|exact H].
      intros prev' s'. apply IH.
Qed.

Lemma exec_alts_inv ws prev s caps k r :
  Re.exec (Re.alts ws) true prev s caps k = Some r →
  ∃ w w' s', w ∈ ws ∧ s = w' +:+ s' ∧ Str.lower w' = Str.lower w ∧
             k (last_char prev w') s' caps = Some r.
Proof.
  induction ws as [|w ws IH].
  - simpl. by destruct s.
  - destruct ws as [|w2 ws].
    + intros (w' & s' & ? & ? & ?)%exec_lit_inv.
      exists w, w', s'. split; [apply list_elem_of_here|done].
    + change (Re.alts (w :: w2 :: ws)) with (Re.Alt (Re.lit w) (Re.alts (w2 :: ws))).
      cbn [Re.exec].
      destruct (Re.exec (Re.lit w) true prev s caps k) as [r'|] eqn:Hw.
      * intros [= ->]. apply exec_lit_inv in Hw as (w' & s' & ? & ? & ?).
        exists w, w', s'. split; [apply list_elem_of_here|done].
      * intros (w0 & w' & s' & ? & ?)%IH.
        exists w0, w', s'. split; [by apply list_elem_of_further|done].
Qed.

End matching.

(** A search succeeds at some position of the subject. *)
Lemma search_from_inv r ic prev s m :
  Re.search_from r ic prev s = Some m →
  ∃ before rest,
    s = before +:+ rest ∧
    Re.exec r ic (last_char prev before) rest [] Re.accept = Some m.
Proof.
  revert prev. induction s as [|x s IH]; intros prev; simpl.
  - destruct (Re.exec r ic prev "" [] Re.accept) eqn:He; [|done].
    intros [= ->]. by exists "", "".
  - destruct (Re.exec r ic prev (String x s) [] Re.accept) eqn:He.
    + intros [= ->]. by exists "", (String x s).
    + intros (before & rest & -> & Hm)%IH. by exists (String x before), rest.
Qed.

(** * The language field *)

(** The first position where a search succeeds. *)
Lemma search_from_first r ic prev s m :
  Re.search_from r ic prev s = Some m →
  ∃ before rest,
    s = before +:+ rest ∧
    Re.exec r ic (last_char prev before) rest [] Re.accept = Some m ∧
    ∀ b1 b2, before = b1 +:+ b2 → b2 ≠ "" →
             Re.exec r ic (last_char prev b1) (b2 +:+ rest) [] Re.accept = None.
Proof.
  revert prev. induction s as [|x s IH]; intros prev; simpl.
  - destruct (Re.exec r ic prev "" [] Re.accept) eqn:He; [|done].
    intros [= ->]. exists "", "". split; [done|]. split; [done|].
    intros [|??] [|??]; done.
  - destruct (Re.exec r ic prev (String x s) [] Re.accept) eqn:He.
    + intros [= ->]. exists "", (String x s). split; [done|]. split; [done|].
      intros [|??] [|??]; done.
    + intros (before & rest & -> & Hm & Hfirst)%IH.
      exists (String x before), rest. split; [done|]. split; [done|].
      intros [|y b1] b2 Heq Hb2.
      * rewrite append_nil_l in Heq. subst b2. by rewrite append_cons.
      * rewrite append_cons in Heq. injection Heq as <- ->. by apply Hfirst.
Qed.

Section completeness.
Context {R : Type}.
Implicit Types (k : option ascii → string → Re.captures → option R).

(** A literal reads a case variant of itself and goes on. *)
Lemma exec_lit_complete w w' prev s caps k :
  Str.lower w' = Str.lower w →
  Re.exec (Re.lit w) true prev (w' +:+ s) caps k = k (last_char prev w') s caps.
Proof.
  revert w' prev. induction w as [|c w IH]; intros w' prev Hlow.
  - destruct w'; [|done]. rewrite append_nil_l. simpl. by destruct s.
  - destruct w' as [|x w']; [done|]. injection Hlow as Hx Hlow.
    assert (Re.chr_eq true c x = true) as Hcx.
    { unfold Re.chr_eq. rewrite Hx. apply Ascii.eqb_refl. }
    destruct w as [|c' w].
    + destruct w'; [|done]. rewrite append_cons, append_nil_l.
      cbn [Re.lit Re.exec last_char]. by rewrite Hcx.
    + change (Re.lit (String c (String c' w)))
        with (Re.Cat (Re.Chr c) (Re.lit (String c' w))).
      rewrite append_cons. cbn [Re.exec]. rewrite Hcx. by rewrite IH.
Qed.

(** The alternatives are tried in order: the result is that of the
    first one that matches. *)
Lemma exec_alts_first ws prev s caps k r :
  Re.exec (Re.alts ws) true prev s caps k = Some r →
  ∃ i name, ws !! i = Some name ∧
    Re.exec (Re.lit name) true prev s caps k = Some r ∧
    ∀ j name2, (j < i)%nat → ws !! j = Some name2 →
               Re.exec (Re.lit name2) true prev s caps k = None.
Proof.
  induction ws as [|w ws IH].
  - simpl. by destruct s.
  - destruct ws as [|w2 ws].
    + intros Hw. exists 0%nat, w. split; [done|]. split; [done|]. intros; lia.
    + change (Re.alts (w :: w2 :: ws)) with (Re.Alt (Re.lit w) (Re.alts (w2 :: ws))).
      cbn [Re.exec].
      destruct (Re.exec (Re.lit w) true prev s caps k) as [r'|] eqn:Hw.
      * intros [= ->]. exists 0%nat, w. split; [done|]. split; [done|]. intros; lia.
      * intros (i & name & Hi & Hname & Hfirst)%IH.
        exists (S i), name. split; [done|]. split; [done|].
        intros [|j] name2 Hj Hlook; [by injection Hlook as <-|].
        apply (Hfirst j); [lia|done].
Qed.

Lemma exec_alts_complete ws name prev s caps k :
  name ∈ ws →
  is_Some (Re.exec (Re.lit name) true prev s caps k) →
  is_Some (Re.exec (Re.alts ws) true prev s caps k).
Proof.
  induction ws as [|w ws IH]; [by intros ?%elem_of_nil|].
  intros Hin Hname. destruct ws as [|w2 ws].
  - apply list_elem_of_singleton in Hin as ->. done.
  - change (Re.alts (w :: w2 :: ws)) with (Re.Alt (Re.lit w) (Re.alts (w2 :: ws))).
    cbn [Re.exec].
    destruct (Re.exec (Re.lit w) true prev s caps k) as [r'|] eqn:Hw; [eauto|].
    apply elem_of_cons in Hin as [->|Hin]; [by rewrite Hw in Hname|].
    by apply IH.
Qed.
End completeness.

(** Two ways to cut a text: the shorter first part is a part of the
    longer one. *)
Lemma append_split s1 t1 s2 t2 :
  s1 +:+ t1 = s2 +:+ t2 → (String.length s2 < String.length s1)%nat →
  ∃ b, s1 = s2 +:+ b ∧ b ≠ "" ∧ t2 = b +:+ t1.
Proof.
  revert s2. induction s1 as [|c s1 IH]; intros s2 Heq Hlen; [simpl in Hlen; lia|].
  destruct s2 as [|c2 s2].
  - exists (String c s1). by rewrite !append_nil_l in *.
  - rewrite !append_cons in Heq. injection Heq as <- Heq. simpl in Hlen.
    destruct (IH s2 Heq) as (b & -> & Hb & ->); [lia|]. by exists b.
Qed.

(** The language pattern at one position. *)
Lemma lang_exec_occurrence before w after name :
  name ∈ language_names → word_occurrence before w after name →
  is_Some (Re.exec lang_re true (last_char None before) (w +:+ after) [] Re.accept).
Proof.
  intros Hname (Hlow & Hb1 & Hb2). unfold lang_re. cbn [Re.exec]. rewrite Hb1.
  eapply exec_alts_complete; [done|].
  rewrite exec_lit_complete by done. rewrite Hb2. by eexists.
Qed.

(** The language pattern finds the leftmost whole word that is a
    language name up to case and, there, the first name of the list
    that fits. *)
Lemma lang_search_first ctx m :
  Re.search lang_re true ctx = Some m →
  ∃ before w after i name,
    ctx = before +:+ w +:+ after ∧ group_text 1 m = w ∧
    language_names !! i = Some name ∧ word_occurrence before w after name ∧
    (∀ before2 w2 after2 name2,
       ctx = before2 +:+ w2 +:+ after2 → name2 ∈ language_names →
       word_occurrence before2 w2 after2 name2 →
       (String.length before ≤ String.length before2)%nat) ∧
    (∀ j name2 w2 after2,
       language_names !! j = Some name2 →
       w +:+ after = w2 +:+ after2 →
       word_occurrence before w2 after2 name2 → (i ≤ j)%nat).
Proof.
  intros (before & rest & -> & Hm & Hfirst)%search_from_first.
  unfold lang_re in Hm. cbn [Re.exec] in Hm.
  destruct (Re.at_boundary _ rest) eqn:Hb1; [|done].
  apply exec_alts_first in Hm as (i & name & Hi & Hm & Halt).
  pose proof Hm as Hm'.
  apply exec_lit_inv in Hm' as (w & after & -> & Hlow & Hm').
  destruct (Re.at_boundary _ after) eqn:Hb2; [|done].
  unfold Re.accept in Hm'. injection Hm' as <-.
  exists before, w, after, i, name. split; [done|].
  split; [unfold group_text; simpl; apply consumed_append|].
  split; [done|]. split; [done|]. split.
  - intros before2 w2 after2 name2 Heq Hname2 Hocc.
    destruct (Nat.le_gt_cases (String.length before) (String.length before2))
      as [|Hlt]; [done|exfalso].
    destruct (append_split _ _ _ _ Heq Hlt) as (b2 & -> & Hb2ne & Hrest).
    pose proof (lang_exec_occurrence _ _ _ _ Hname2 Hocc) as [m' Hm'].
    rewrite Hrest in Hm'. by rewrite (Hfirst before2 b2) in Hm'.
  - intros j name2 w2 after2 Hj Heq (Hlow2 & _ & Hb2').
    destruct (Nat.le_gt_cases i j) as [|Hlt]; [done|exfalso].
    specialize (Halt j name2 Hlt Hj). rewrite Heq in Halt.
    rewrite exec_lit_complete in Halt by done. by rewrite Hb2' in Halt.
Qed.

Lemma search_from_complete r ic prev before rest :
  is_Some (Re.exec r ic (last_char prev before) rest [] Re.accept) →
  is_Some (Re.search_from r ic prev (before +:+ rest)).
Proof.
  revert prev. induction before as [|x before IH]; intros prev Hm.
  - rewrite append_nil_l. simpl in Hm. destruct Hm as [m Hm].
    destruct rest; simpl; rewrite Hm; eauto.
  - rewrite append_cons. cbn [Re.search_from].
    destruct (Re.exec r ic prev _ [] Re.accept); [eauto|]. by apply IH.
Qed.

Lemma extract_metadata_language ctx (b : book) :
  extract_metadata ctx b !! "language" =
    match Re.search lang_re true ctx with
    | Some lang_match => Some (group_text 1 lang_match)
    | None => b !! "language"
    end.
Proof.
  unfold extract_metadata.
  destruct (Re.search lang_re true ctx); [by rewrite lookup_insert_eq|].
  repeat (destruct (Re.search _ true ctx); rewrite ?lookup_insert_ne by done); done.
Qed.

(** C5, amended: for every ASCII context text in which one of the
    enumerated language names occurs as a whole word, in any case of
    its letters, the extracted language is the first match, spelled
    as the context spells it: the leftmost whole word of the context
    that is a language name up to case, taken for the first name of
    the enumeration that fits at that place.  It is an enumerated name
    only up to the case of its letters. *)
Theorem language_as_spelled_in_context ctx (b : book)
    before0 w0 after0 name0 :
  Str.isascii ctx = true →
  ctx = before0 +:+ w0 +:+ after0 →
  name0 ∈ language_names →
  word_occurrence before0 w0 after0 name0 →
  ∃ before w after i name,
    extract_metadata ctx b !! "language" = Some w ∧
    ctx = before +:+ w +:+ after ∧
    language_names !! i = Some name ∧
    word_occurrence before w after name ∧
    (∀ before2 w2 after2 name2,
       ctx = before2 +:+ w2 +:+ after2 → name2 ∈ language_names →
       word_occurrence before2 w2 after2 name2 →
       (String.length before ≤ String.length before2)%nat) ∧
    (∀ j name2 w2 after2,
       language_names !! j = Some name2 →
       w +:+ after = w2 +:+ after2 →
       word_occurrence before w2 after2 name2 → (i ≤ j)%nat).
Proof.
  intros _ Hctx Hname0 Hocc0.
  destruct (search_from_complete lang_re true None before0 (w0 +:+ after0))
    as [m Hm]; [by apply lang_exec_occurrence with name0|].
  rewrite <-Hctx in Hm. rewrite extract_metadata_language.
  change (Re.search_from lang_re true None ctx) with (Re.search lang_re true ctx) in Hm.
  rewrite Hm.
  apply lang_search_first in Hm
    as (before & w & after & i & name & ? & <- & ? & ? & ? & ?).
  by exists before, (group_text 1 m), after, i, name.
Qed.

Lemma language_as_spelled_in_context_witness :
  ∃ before w after i name,
    extract_metadata "An english edition" ∅ !! "language" = Some w ∧
    "An english edition" = before +:+ w +:+ after ∧
    language_names !! i = Some name ∧
    word_occurrence before w after name ∧
    (∀ before2 w2 after2 name2,
       "An english edition" = before2 +:+ w2 +:+ after2 →
       name2 ∈ language_names →
       word_occurrence before2 w2 after2 name2 →
       (String.length before ≤ String.length before2)%nat) ∧
    (∀ j name2 w2 after2,
       language_names !! j = Some name2 →
       w +:+ after = w2 +:+ after2 →
       word_occurrence before w2 after2 name2 → (i ≤ j)%nat).
Proof.
  apply (language_as_spelled_in_context "An english edition" ∅
           "An " "english" " edition" "English").
  - reflexivity.
  - reflexivity.
  - apply list_elem_of_here.
  - repeat split.
Defined.

(** The claim C5 as stated fails: in [page_english] the context
    spells the language [english], and so does the record. *)
Lemma language_not_title_case :
  is_Some (Re.search lang_re true "An english edition") ∧
  (∃ b, _parse_search_results Scenario.page_english = [b] ∧
        b !! "language" = Some "english") ∧
  "english" ∉ language_names.
Proof.
  split; [vm_compute; eauto|]. split.
  - eexists. split; vm_compute; reflexivity.
  - vm_compute. intros H. repeat (inversion H as [|??? H']; subst; clear H; rename H' into H).
Qed.

(** * The size conversion *)

(** A size text that the pattern does not match at its start converts
    to ["0"]. *)
Lemma convert_size_no_match s :
  Re.match_ size_re true s = None → _convert_size_to_bytes (Some s) = Return "0".
Proof. intros H. unfold _convert_size_to_bytes. rewrite H. by destruct (Str.truthy s). Qed.

(** C2: the empty and the absent size text convert to ["0"], but a
    text whose leading digits and dots are not a number, followed by a
    unit, makes the conversion raise instead of returning ["0"]. *)
Theorem convert_size_malformed_number_raises :
  _convert_size_to_bytes None = Return "0" ∧
  _convert_size_to_bytes (Some "") = Return "0" ∧
  _convert_size_to_bytes (Some ".B")
    = Raise (ValueError "could not convert string to float: '.'") ∧
  _convert_size_to_bytes (Some "1.2.3MB")
    = Raise (ValueError "could not convert string to float: '1.2.3'").
Proof. repeat split; vm_compute; reflexivity. Qed.

(** * Binary64 rounding of representable values *)

Lemma pow2_pos a : 0 ≤ a → 0 < 2 ^ a.
Proof. intros. by apply Z.pow_pos_nonneg. Qed.

Lemma pow2_max_pos a : 0 < 2 ^ Z.max 0 a.
Proof. apply pow2_pos. lia. Qed.

Lemma pow2_add a b : 0 ≤ a → 0 ≤ b → 2 ^ (a + b) = 2 ^ a * 2 ^ b.
Proof. intros. by apply Z.pow_add_r. Qed.

Lemma pow2_le_ge l num den : Binary64.pow2_le l num den = true ↔ ge_pow2 l num den.
Proof.
  unfold Binary64.pow2_le, ge_pow2.
  destruct (Z.leb_spec 0 l).
  - rewrite Z.max_r, Z.max_l by lia. rewrite Z.leb_le. simpl. lia.
  - rewrite Z.max_l, Z.max_r by lia. rewrite Z.leb_le. simpl. lia.
Qed.

(** [2^l <= m * 2^j] exactly when [l <= log2 m + j]. *)
Lemma ge_pow2_scaled l num den m j :
  0 < den → 0 < m → is_scaled num den m j →
  ge_pow2 l num den ↔ l ≤ Z.log2 m + j.
Proof.
  intros Hden Hm Hs. unfold ge_pow2, is_scaled in *.
  pose proof (pow2_max_pos (- j)) as Hnj.
  (* compare after multiplying by 2^max 0 (-j) *)
  rewrite (Z.mul_le_mono_pos_r _ _ (2 ^ Z.max 0 (- j))) by done.
  replace (num * 2 ^ Z.max 0 (- l) * 2 ^ Z.max 0 (- j))
    with (m * 2 ^ Z.max 0 j * 2 ^ Z.max 0 (- l) * den)
    by (transitivity (num * 2 ^ Z.max 0 (- j) * 2 ^ Z.max 0 (- l)); [rewrite Hs|]; ring).
  replace (2 ^ Z.max 0 l * den * 2 ^ Z.max 0 (- j))
    with (2 ^ Z.max 0 l * 2 ^ Z.max 0 (- j) * den) by ring.
  rewrite <-(Z.mul_le_mono_pos_r _ _ den) by done.
  rewrite <-!pow2_add by lia.
  (* 2^(max 0 l + max 0 (-j)) <= m * 2^(max 0 j + max 0 (-l)) *)
  rewrite <-Z.mul_assoc, <-pow2_add by lia.
  set (a := Z.max 0 l + Z.max 0 (- j)). set (b := Z.max 0 j + Z.max 0 (- l)).
  assert (a - b = l - j) as Hab by lia.
  assert (0 ≤ a ∧ 0 ≤ b) as [Ha Hb] by lia.
  pose proof (Z.log2_nonneg m) as Hlog.
  destruct (Z.le_gt_cases b a) as [Hle|Hgt].
  - replace a with (b + (a - b)) by lia. rewrite pow2_add by lia.
    rewrite (Z.mul_comm (2 ^ b)), <-(Z.mul_le_mono_pos_r _ _ (2 ^ b)) by (apply pow2_pos; lia).
    rewrite Z.log2_le_pow2 by done. lia.
  - split; [lia|]. intros _.
    replace b with (a + (b - a)) by lia. rewrite pow2_add by lia.
    pose proof (pow2_pos a Ha). pose proof (pow2_pos (b - a) ltac:(lia)).
    assert (1 ≤ m * 2 ^ (b - a)) by nia.
    transitivity (2 ^ a * 1); [lia|].
    replace (m * (2 ^ a * 2 ^ (b - a))) with (2 ^ a * (m * 2 ^ (b - a))) by ring.
    apply Z.mul_le_mono_nonneg_l; lia.
Qed.

Lemma is_scaled_pos num den m j :
  0 < den → 0 < m → is_scaled num den m j → 0 < num.
Proof.
  unfold is_scaled. intros Hden Hm Hs.
  pose proof (pow2_max_pos j). pose proof (pow2_max_pos (- j)).
  assert (0 < m * 2 ^ Z.max 0 j * den) by (repeat apply Z.mul_pos_pos; done).
  nia.
Qed.

(** The estimate [log2 num - log2 den] is the floor of [log2 (num /
    den)] or exceeds it by one. *)
Lemma ge_pow2_estimate_below num den :
  0 < num → 0 < den → ge_pow2 (Z.log2 num - Z.log2 den - 1) num den.
Proof.
  intros Hnum Hden. unfold ge_pow2.
  destruct (Z.log2_spec num Hnum) as [Ha _], (Z.log2_spec den Hden) as [_ Hb].
  pose proof (Z.log2_nonneg num). pose proof (Z.log2_nonneg den).
  set (a := Z.log2 num) in *. set (b := Z.log2 den) in *. set (l := a - b - 1).
  transitivity (2 ^ Z.max 0 l * 2 ^ Z.succ b).
  { apply Z.mul_le_mono_nonneg_l; [apply Z.lt_le_incl, pow2_max_pos|lia]. }
  rewrite <-pow2_add by lia.
  replace (Z.max 0 l + Z.succ b) with (a + Z.max 0 (- l)) by lia.
  rewrite pow2_add by lia.
  apply Z.mul_le_mono_nonneg_r; [apply Z.lt_le_incl, pow2_max_pos|done].
Qed.

Lemma ge_pow2_estimate_above num den :
  0 < num → 0 < den → ¬ ge_pow2 (Z.log2 num - Z.log2 den + 1) num den.
Proof.
  intros Hnum Hden. unfold ge_pow2.
  destruct (Z.log2_spec num Hnum) as [_ Ha], (Z.log2_spec den Hden) as [Hb _].
  pose proof (Z.log2_nonneg num). pose proof (Z.log2_nonneg den).
  set (a := Z.log2 num) in *. set (b := Z.log2 den) in *. set (l := a - b + 1).
  apply Z.lt_nge.
  apply Z.lt_le_trans with (2 ^ Z.succ a * 2 ^ Z.max 0 (- l)).
  { apply Z.mul_lt_mono_pos_r; [apply pow2_max_pos|done]. }
  rewrite <-pow2_add by lia.
  replace (Z.succ a + Z.max 0 (- l)) with (Z.max 0 l + b) by lia.
  rewrite pow2_add by lia.
  apply Z.mul_le_mono_nonneg_l; [apply Z.lt_le_incl, pow2_max_pos|done].
Qed.

Lemma ilog2_scaled num den m j :
  0 < den → 0 < m → is_scaled num den m j →
  Binary64.ilog2 num den = Z.log2 m + j.
Proof.
  intros Hden Hm Hs. pose proof (is_scaled_pos _ _ _ _ Hden Hm Hs) as Hnum.
  pose proof (ge_pow2_estimate_below num den Hnum Hden) as Hlo.
  pose proof (ge_pow2_estimate_above num den Hnum Hden) as Hhi.
  rewrite (ge_pow2_scaled _ _ _ _ _ Hden Hm Hs) in Hlo.
  rewrite (ge_pow2_scaled _ _ _ _ _ Hden Hm Hs) in Hhi.
  unfold Binary64.ilog2.
  destruct (Binary64.pow2_le _ num den) eqn:Hl.
  - apply pow2_le_ge in Hl. rewrite (ge_pow2_scaled _ _ _ _ _ Hden Hm Hs) in Hl. lia.
  - apply not_true_iff_false in Hl. rewrite pow2_le_ge in Hl.
    rewrite (ge_pow2_scaled _ _ _ _ _ Hden Hm Hs) in Hl. lia.
Qed.

(** Powers of two with equal exponents. *)
Lemma pow2_eq a b : a = b → 2 ^ a = 2 ^ b.
Proof. by intros ->. Qed.

(** A value with a mantissa of at most 53 bits and an exponent in
    range is rounded to itself. *)
Lemma round_exact num den m j :
  0 < den → 0 < m < 2 ^ 53 → -1074 ≤ j ≤ 971 → is_scaled num den m j →
  let e := Z.max (Z.log2 m + j - 52) (-1074) in
  Binary64.round num den = Binary64.Finite (m * 2 ^ (j - e)) e ∧ e ≤ j.
Proof.
  intros Hden [Hm Hm53] Hj Hs e.
  pose proof (is_scaled_pos _ _ _ _ Hden Hm Hs) as Hnum.
  assert (Z.log2 m < 53) as Hlog by (by apply Z.log2_lt_pow2).
  assert (e ≤ j) as He by lia. split; [|done].
  unfold Binary64.round.
  destruct (Z.eqb_spec num 0) as [->|_]; [lia|].
  rewrite (ilog2_scaled _ _ _ _ Hden Hm Hs).
  change (Binary64.prec - 1) with 52. change Binary64.emin with (-1074).
  change Binary64.emax with 1024. fold e.
  set (n := num * 2 ^ Z.max 0 (- e)). set (d := den * 2 ^ Z.max 0 e).
  set (q := m * 2 ^ (j - e)).
  assert (0 < d) as Hd by (apply Z.mul_pos_pos; [done|apply pow2_max_pos]).
  assert (n = q * d) as Hn.
  { apply (Z.mul_reg_r _ _ (2 ^ Z.max 0 (- j))); [pose proof (pow2_max_pos (- j)); lia|].
    unfold n, q, d.
    transitivity (num * 2 ^ Z.max 0 (- j) * 2 ^ Z.max 0 (- e)); [ring|].
    rewrite Hs.
    transitivity (m * den * (2 ^ Z.max 0 j * 2 ^ Z.max 0 (- e))); [ring|].
    transitivity (m * den * (2 ^ (j - e) * 2 ^ Z.max 0 e * 2 ^ Z.max 0 (- j))); [|ring].
    f_equal. rewrite <-!pow2_add by lia. apply pow2_eq. lia. }
  rewrite Hn, Z.div_mul, Z.mod_mul by lia.
  rewrite Z.mul_0_r. destruct (Z.ltb_spec 0 d) as [_|]; [|lia].
  destruct (Z.leb_spec (2 ^ 1024 * 2 ^ Z.max 0 (- e)) (q * 2 ^ Z.max 0 e)) as [Hover|_];
    [exfalso|done].
  revert Hover. apply Z.lt_nge. unfold q.
  rewrite <-Z.mul_assoc, <-!pow2_add by lia.
  apply Z.lt_le_trans with (2 ^ 53 * 2 ^ (j - e + Z.max 0 e)).
  { apply Z.mul_lt_mono_pos_r; [apply pow2_pos; lia|done]. }
  rewrite <-pow2_add by lia. apply Z.pow_le_mono_r; lia.
Qed.

Lemma to_int_scaled num den m j e :
  0 < den → 0 ≤ m → e ≤ j → is_scaled num den m j →
  Binary64.to_int (Binary64.Finite (m * 2 ^ (j - e)) e) = Return (num / den).
Proof.
  intros Hden Hm He Hs. unfold Binary64.to_int. f_equal.
  unfold is_scaled in Hs.
  destruct (Z.leb_spec 0 e).
  - rewrite Z.max_l, Z.max_r in Hs by lia. rewrite Z.pow_0_r, Z.mul_1_r in Hs.
    rewrite Hs, Z.div_mul by lia.
    rewrite <-Z.mul_assoc, <-pow2_add by lia. f_equal. apply pow2_eq. lia.
  - pose proof (pow2_max_pos (- j)) as Hnj.
    rewrite <-(Z.div_mul_cancel_r num den (2 ^ Z.max 0 (- j))) by lia.
    rewrite Hs.
    replace (den * 2 ^ Z.max 0 (- j)) with (2 ^ Z.max 0 (- j) * den) by ring.
    rewrite Z.div_mul_cancel_r by lia.
    replace (- e) with (Z.max 0 (- j) + (j - e - Z.max 0 j)) by lia.
    rewrite pow2_add by lia.
    replace (j - e) with (Z.max 0 j + (j - e - Z.max 0 j)) at 1 by lia.
    rewrite pow2_add, Z.mul_assoc by lia.
    rewrite Z.div_mul_cancel_r; [done|pose proof (pow2_max_pos (- j)); lia|].
    pose proof (pow2_pos (j - e - Z.max 0 j)). lia.
Qed.

Lemma is_scaled_mul num den m j k :
  0 ≤ k → is_scaled num den m j → is_scaled (num * 2 ^ k) den m (j + k).
Proof.
  unfold is_scaled. intros Hk Hs.
  apply (Z.mul_reg_r _ _ (2 ^ Z.max 0 (- j))); [pose proof (pow2_max_pos (- j)); lia|].
  transitivity (num * 2 ^ Z.max 0 (- j) * (2 ^ k * 2 ^ Z.max 0 (- (j + k)))); [ring|].
  rewrite Hs.
  transitivity (m * den * (2 ^ Z.max 0 j * 2 ^ k * 2 ^ Z.max 0 (- (j + k)))); [ring|].
  transitivity (m * den * (2 ^ Z.max 0 (j + k) * 2 ^ Z.max 0 (- j))); [|ring].
  f_equal. rewrite <-!pow2_add by lia. apply pow2_eq. lia.
Qed.

(** The product of two values kept with exponents [e1] and [e2]. *)
Lemma is_scaled_product ma ja e1 mb jb e2 :
  e1 ≤ ja → e2 ≤ jb →
  is_scaled (ma * 2 ^ (ja - e1) * (mb * 2 ^ (jb - e2)) * 2 ^ Z.max 0 (e1 + e2))
    (2 ^ Z.max 0 (- (e1 + e2))) (ma * mb) (ja + jb).
Proof.
  intros H1 H2. unfold is_scaled.
  transitivity (ma * mb * (2 ^ (ja - e1) * 2 ^ (jb - e2) * 2 ^ Z.max 0 (e1 + e2)
                           * 2 ^ Z.max 0 (- (ja + jb)))); [ring|].
  transitivity (ma * mb * (2 ^ Z.max 0 (ja + jb) * 2 ^ Z.max 0 (- (e1 + e2)))); [|ring].
  f_equal. rewrite <-!pow2_add by lia. apply pow2_eq. lia.
Qed.

Lemma round_zero den : Binary64.round 0 den = Binary64.Finite 0 0.
Proof. reflexivity. Qed.

(** The bytes of a representable number times a power of two. *)
Lemma to_int_mul_exact num den k :
  0 < den → 0 ≤ k ≤ 30 → representable num den →
  Binary64.to_int
    (Binary64.mul (Binary64.round num den) (Binary64.of_int (2 ^ k)))
  = Return (num * 2 ^ k / den).
Proof.
  intros Hden Hk (m & j & [Hm0 Hm] & Hj & Hs).
  assert (is_scaled (2 ^ k) 1 1 k) as Hsk.
  { unfold is_scaled. rewrite Z.max_l, Z.max_r by lia. ring. }
  destruct (round_exact (2 ^ k) 1 1 k) as [Hy He2];
    [lia|split; [lia|reflexivity]|lia|done|].
  unfold Binary64.of_int. rewrite Hy. clear Hy.
  set (e2 := Z.max (Z.log2 1 + k - 52) (-1074)) in *.
  destruct (Z.eq_dec m 0) as [->|Hne].
  - assert (num = 0) as ->.
    { unfold is_scaled in Hs. pose proof (pow2_max_pos (- j)). nia. }
    rewrite round_zero. unfold Binary64.mul.
    rewrite !Z.mul_0_l, round_zero. reflexivity.
  - destruct (round_exact num den m j) as [Hx He1]; [done|lia|lia|done|].
    rewrite Hx. clear Hx.
    set (e1 := Z.max (Z.log2 m + j - 52) (-1074)) in *.
    unfold Binary64.mul.
    pose proof (is_scaled_product m j e1 1 k e2 He1 He2) as Hp.
    rewrite Z.mul_1_r in Hp.
    destruct (round_exact _ _ m (j + k) (pow2_max_pos _) ltac:(lia) ltac:(lia) Hp)
      as [-> He3].
    apply to_int_scaled; [done|lia|done|]. apply is_scaled_mul; [lia|done].
Qed.

Lemma isdecimal_not_dot c : Str.isdecimal c = true → Ascii.eqb c "." = false.
Proof. destruct (Ascii.eqb_spec c ".") as [->|]; [|done]. by vm_compute. Qed.

Lemma isdecimal_digit_or_dot c : Str.isdecimal c = true → digit_or_dot c = true.
Proof. unfold digit_or_dot. by intros ->. Qed.

Lemma isspace_not_digit_or_dot c : Str.isspace c = true → digit_or_dot c = false.
Proof. by destruct c as [[] [] [] [] [] [] [] []]. Qed.

Lemma all_chars_impl (p q : ascii → bool) s :
  (∀ c, p c = true → q c = true) → all_chars p s = true → all_chars q s = true.
Proof.
  intros Hpq. induction s as [|c s IH]; simpl; [done|].
  intros [?%Hpq ?%IH]%andb_true_iff. by apply andb_true_iff.
Qed.

Lemma int_of_digits_value acc w :
  all_chars Str.isdecimal w = true →
  Binary64.int_of_digits acc w = Some (digits_value acc w).
Proof.
  revert acc. induction w as [|c w IH]; intros acc; simpl; [done|].
  intros [-> ?]%andb_true_iff. by apply IH.
Qed.

Lemma split_dot_number ip ofp :
  all_chars Str.isdecimal ip = true →
  Binary64.split_dot (number_text ip ofp) = (ip, ofp).
Proof.
  unfold number_text. induction ip as [|c ip IH]; simpl.
  - intros _. by destruct ofp.
  - intros [Hc ?]%andb_true_iff.
    by rewrite (isdecimal_not_dot c Hc), IH.
Qed.

Lemma number_text_chars ip ofp :
  all_chars Str.isdecimal ip = true →
  all_chars Str.isdecimal (default "" ofp) = true →
  all_chars digit_or_dot (number_text ip ofp) = true.
Proof.
  intros Hip Hfp. unfold number_text. rewrite all_chars_append.
  apply andb_true_iff. split.
  { eapply all_chars_impl; [apply isdecimal_digit_or_dot|done]. }
  destruct ofp as [fp|]; [|done]. rewrite append_cons, append_nil_l. simpl.
  eapply all_chars_impl; [apply isdecimal_digit_or_dot|done].
Qed.

Lemma number_text_truthy ip ofp :
  Str.truthy (ip +:+ default "" ofp) = true → Str.truthy (number_text ip ofp) = true.
Proof. unfold number_text. destruct ip; [|done]. by destruct ofp as [[|]|]. Qed.

Lemma of_str_number ip ofp :
  all_chars Str.isdecimal ip = true →
  all_chars Str.isdecimal (default "" ofp) = true →
  Str.truthy (ip +:+ default "" ofp) = true →
  Binary64.of_str (number_text ip ofp) =
    Return (Binary64.round (decimal_value (ip +:+ default "" ofp))
              (10 ^ Z.of_nat (String.length (default "" ofp)))).
Proof.
  intros Hip Hfp Ht. unfold Binary64.of_str.
  rewrite split_dot_number, Ht by done. simpl.
  rewrite int_of_digits_value; [done|].
  rewrite all_chars_append. by apply andb_true_iff.
Qed.

(** The two spellings of a unit letter. *)
Lemma upper_char_unit c x :
  x ∈ ["B"; "K"; "M"; "G"]%char → Str.upper_char c = x →
  c = x ∨ c = Str.lower_char x.
Proof.
  intros Hx. repeat (apply elem_of_cons in Hx as [->|Hx]);
    [..|by apply elem_of_nil in Hx];
    destruct c as [[] [] [] [] [] [] [] []]; vm_compute; intros H;
    try discriminate H; auto.
Qed.

Lemma unit_spelling u mult :
  (Str.upper u, mult) ∈ unit_multipliers → (u, mult) ∈ unit_spellings.
Proof.
  intros H. unfold unit_multipliers in H.
  repeat (apply elem_of_cons in H as [H|H]); [..|by apply elem_of_nil in H].
  all: apply pair_equal_spec in H as [Hu ->].
  all: destruct u as [|c1 [|c2 [|c3 u]]]; try discriminate Hu.
  all: first [injection Hu as H1 H2 | injection Hu as H1].
  all: repeat match goal with
       | H : Str.upper_char _ = ?x |- _ =>
           apply (upper_char_unit _ x ltac:(elem_of_list)) in H as [->| ->]
       | H : Str.upper (String _ _) = _ |- _ => discriminate H
       | H : Str.upper "" = _ |- _ => clear H
       end.
  all: vm_compute; elem_of_list.
Qed.

(** The size pattern on a number, white space and a unit. *)
Lemma size_match n ws u mult :
  all_chars digit_or_dot n = true → Str.truthy n = true →
  all_chars Str.isspace ws = true →
  (u, mult) ∈ unit_spellings →
  Re.match_ size_re true (n +:+ ws +:+ u) = Some [(2%nat, u); (1%nat, n)].
Proof.
  intros Hn Ht Hws Hu.
  assert (stops Str.isspace u = true ∧ stops digit_or_dot u = true ∧
          ∀ prev caps,
            Re.exec (Re.Group 2 (Re.alts ["MB"; "KB"; "GB"; "B"])) true prev u caps
              Re.accept = Some ((2%nat, u) :: caps)) as (Hsp & Hdd & Hunit).
  { unfold unit_spellings in Hu.
    repeat (apply elem_of_cons in Hu as [Hu|Hu]); [..|by apply elem_of_nil in Hu];
      apply pair_equal_spec in Hu as [-> _]; done. }
  destruct n as [|x n]; [done|]. simpl in Hn. apply andb_true_iff in Hn as [Hx Hn].
  unfold Re.match_, size_re. cbn [Re.exec]. rewrite append_cons, Hx.
  apply rep_greedy; [done| |].
  { destruct ws as [|c ws]; [done|]. simpl in Hws. apply andb_true_iff in Hws as [Hc _].
    rewrite append_cons. simpl. by rewrite isspace_not_digit_or_dot. }
  apply rep_greedy; [done..|].
  rewrite <-append_cons, consumed_append. apply Hunit.
Qed.

Lemma unit_spelling_upper u mult :
  (u, mult) ∈ unit_spellings →
  default 1 (multipliers !! Str.upper u) = mult ∧ ∃ k, 0 ≤ k ≤ 30 ∧ mult = 2 ^ k.
Proof.
  intros Hu. unfold unit_spellings in Hu.
  repeat (apply elem_of_cons in Hu as [Hu|Hu]); [..|by apply elem_of_nil in Hu];
    apply pair_equal_spec in Hu as [-> ->];
    (split; [by vm_compute|]);
    [exists 0|exists 0|exists 10|exists 10|exists 10|exists 10
    |exists 20|exists 20|exists 20|exists 20|exists 30|exists 30|exists 30|exists 30];
    (split; [lia|reflexivity]).
Qed.

Lemma convert_size_token_general ip ofp ws u mult :
  let fp := default "" ofp in
  all_chars Str.isdecimal ip = true →
  all_chars Str.isdecimal fp = true →
  Str.truthy (ip +:+ fp) = true →
  all_chars Str.isspace ws = true →
  (Str.upper u, mult) ∈ unit_multipliers →
  _convert_size_to_bytes (Some (number_text ip ofp +:+ ws +:+ u)) =
    match
      Binary64.to_int
        (Binary64.mul
           (Binary64.round (decimal_value (ip +:+ fp))
              (10 ^ Z.of_nat (String.length fp)))
           (Binary64.of_int mult))
    with
    | Return bytes => Return (Str.of_int bytes)
    | Raise e => Raise e
    end.
Proof.
  intros fp Hip Hfp Ht Hws Hu%unit_spelling.
  pose proof (number_text_truthy ip ofp Ht) as Hn.
  unfold _convert_size_to_bytes.
  rewrite (size_match _ ws u mult (number_text_chars ip ofp Hip Hfp) Hn Hws Hu).
  destruct (number_text ip ofp +:+ ws +:+ u) eqn:Htok.
  { by destruct (number_text ip ofp). }
  cbn [Str.truthy negb]. unfold group_text. cbn [Re.group Nat.eqb default from_option id].
  rewrite of_str_number by done.
  by destruct (unit_spelling_upper u mult Hu) as [-> _].
Qed.

(** C1, amended: for every size token made of a decimal number, white
    space and a unit B, KB, MB or GB in any case,
    [_convert_size_to_bytes] returns the integer part of the product
    of the binary64 value nearest to the number with the multiplier of
    the unit (1, 1024, 1024^2, 1024^3), or raises when that product is
    infinite; this is the floor of the number times the multiplier
    whenever the number is a binary64 value [m * 2^e] with [m < 2^53]
    and [-1074 <= e <= 941]. *)
Theorem convert_size_token ip ofp ws u mult :
  let fp := default "" ofp in
  let num := decimal_value (ip +:+ fp) in
  let den := 10 ^ Z.of_nat (String.length fp) in
  all_chars Str.isdecimal ip = true →
  all_chars Str.isdecimal fp = true →
  Str.truthy (ip +:+ fp) = true →
  all_chars Str.isspace ws = true →
  (Str.upper u, mult) ∈ unit_multipliers →
  _convert_size_to_bytes (Some (number_text ip ofp +:+ ws +:+ u)) =
    match
      Binary64.to_int
        (Binary64.mul (Binary64.round num den) (Binary64.of_int mult))
    with
    | Return bytes => Return (Str.of_int bytes)
    | Raise e => Raise e
    end ∧
  (representable num den →
   _convert_size_to_bytes (Some (number_text ip ofp +:+ ws +:+ u)) =
     Return (Str.of_int (num * mult / den))).
Proof.
  intros fp num den Hip Hfp Ht Hws Hu.
  rewrite (convert_size_token_general ip ofp ws u mult) by done.
  split; [done|]. intros Hrep.
  destruct (unit_spelling_upper u mult (unit_spelling u mult Hu))
    as (_ & k & Hk & ->).
  fold fp. fold num. fold den.
  rewrite to_int_mul_exact; [done| |done..].
  apply Z.pow_pos_nonneg; lia.
Qed.

Lemma convert_size_token_witness :
  representable 25 10 ∧
  _convert_size_to_bytes (Some "2.5MB") = Return "2621440".
Proof.
  assert (representable 25 10) as Hrep.
  { exists 5, (-1). split; [split; [lia|reflexivity]|]. split; [lia|reflexivity]. }
  split; [exact Hrep|].
  exact (proj2 (convert_size_token "2" (Some "5") "" "MB" (1024 ^ 2)
                  eq_refl eq_refl eq_refl eq_refl
                  ltac:(vm_compute; elem_of_list))
           Hrep).
Defined.

(** The claim C1 as stated fails: [9007199254740993] is [2^53 + 1],
    which is not a binary64 value; it is rounded to [2^53] before the
    product is taken. *)
Lemma size_token_rounded :
  _convert_size_to_bytes (Some "9007199254740993B") = Return "9007199254740992" ∧
  _convert_size_to_bytes (Some "9007199254740993B") ≠
    Return (Str.of_int (decimal_value "9007199254740993" * 1 / 10 ^ 0)).
Proof. split; vm_compute; [reflexivity|discriminate]. Qed.

(** * More about matching *)

(** What a greedy repetition has read when the match succeeds. *)
Lemma rep_inv {R} p prev s (k : option ascii → string → option R) r :
  Re.rep p prev s k = Some r →
  ∃ w s', s = w +:+ s' ∧ all_chars p w = true ∧ k (last_char prev w) s' = Some r.
Proof.
  revert prev. induction s as [|x s IH]; intros prev; simpl.
  - intros Hk. by exists "", "".
  - destruct (p x) eqn:Hx; [|intros Hk; by exists "", (String x s)].
    destruct (Re.rep p (Some x) s k) as [r'|] eqn:Hrep.
    + intros [= ->]. apply IH in Hrep as (w & s' & -> & Hw & Hk).
      exists (String x w), s'. split; [done|]. split; [|done].
      simpl. by rewrite Hx.
    + intros Hk. by exists "", (String x s).
Qed.

Lemma plus_inv {R} p ic prev s caps (k : option ascii → string → Re.captures → option R) r :
  Re.exec (Re.Plus p) ic prev s caps k = Some r →
  ∃ w s', s = w +:+ s' ∧ all_chars p w = true ∧ Str.truthy w = true ∧
          k (last_char prev w) s' caps = Some r.
Proof.
  simpl. destruct s as [|x s]; [done|]. destruct (p x) eqn:Hx; [|done].
  intros (w & s' & -> & Hw & Hk)%rep_inv.
  exists (String x w), s'. split; [done|]. split; [|done].
  simpl. by rewrite Hx.
Qed.

(** What a successful match of a literal has read, case by case. *)
Lemma exec_lit_exact_inv {R} w prev s caps (k : option ascii → string → Re.captures → option R) r :
  Re.exec (Re.lit w) false prev s caps k = Some r →
  ∃ s', s = w +:+ s' ∧ k (last_char prev w) s' caps = Some r.
Proof.
  revert prev s. induction w as [|c w IH]; intros prev s.
  - simpl. intros Hk. exists s. split; [done|]. destruct s; simpl in Hk; done.
  - assert (∀ k', (∀ prev' s', k' prev' s' caps = Some r → ∃ s'',
               s' = w +:+ s'' ∧ k (last_char prev' w) s'' caps = Some r) →
            Re.exec (Re.Chr c) false prev s caps k' = Some r →
            ∃ s', s = String c w +:+ s' ∧
                  k (last_char prev (String c w)) s' caps = Some r) as Hchr.
    { intros k' Hk'. simpl. destruct s as [|x s]; [done|].
      destruct (Ascii.eqb_spec c x) as [<-|]; [|done].
      intros (s'' & -> & Hk)%Hk'. by exists s''. }
    destruct w as [|c' w].
    + apply Hchr. intros prev' s' Hk. by exists s'.
    + change (Re.lit (String c (String c' w)))
        with (Re.Cat (Re.Chr c) (Re.lit (String c' w))).
      intros H.
      apply (Hchr (λ prev' s' caps',
                   Re.exec (Re.lit (String c' w)) false prev' s' caps' k)); [|exact H].
      intros prev' s'. apply IH.
Qed.

(** The identifier pattern: where it matches, what it captures. *)
Lemma md5_exec_inv prev s m :
  Re.exec md5_re false prev s [] Re.accept = Some m →
  ∃ md5 after, s = "/md5/" +:+ md5 +:+ after ∧ group_text 1 m = md5 ∧
               all_chars hex_lower md5 = true ∧ Str.truthy md5 = true.
Proof.
  unfold md5_re. cbn [Re.exec].
  intros (s1 & -> & Hm)%exec_lit_exact_inv.
  destruct s1 as [|x s1]; [done|]. destruct (hex_lower x) eqn:Hx; [|done].
  apply rep_inv in Hm as (w & after & -> & Hw & Hm).
  unfold Re.accept in Hm. injection Hm as <-.
  exists (String x w), after. split; [done|].
  split; [|by simpl; rewrite Hx, Hw].
  unfold group_text. simpl. rewrite <-append_cons. apply consumed_append.
Qed.

Lemma md5_search_inv href m :
  Re.search md5_re false href = Some m →
  ∃ before md5 after,
    href = before +:+ "/md5/" +:+ md5 +:+ after ∧ group_text 1 m = md5 ∧
    all_chars hex_lower md5 = true ∧ Str.truthy md5 = true.
Proof.
  intros (before & rest & -> & (md5 & after & -> & ?)%md5_exec_inv)%search_from_inv.
  by exists before, md5, after.
Qed.

(** The identifier pattern does not look at the character before the
    position where it starts. *)
Lemma md5_search_from_prev prev1 prev2 s :
  Re.search_from md5_re false prev1 s = Re.search_from md5_re false prev2 s.
Proof.
  revert prev1 prev2. induction s as [|x s IH]; intros prev1 prev2; [done|].
  cbn [Re.search_from].
  replace (Re.exec md5_re false prev1 (String x s) [] Re.accept)
    with (Re.exec md5_re false prev2 (String x s) [] Re.accept) by done.
  destruct (Re.exec md5_re false prev2 (String x s) [] Re.accept); [done|].
  apply IH.
Qed.

(** Putting the base URL in front of a reference does not change the
    identifier that is found in it. *)
Lemma md5_search_base_url href :
  Re.search md5_re false (BASE_URL +:+ href) = Re.search md5_re false href.
Proof.
  unfold Re.search, BASE_URL.
  repeat (rewrite append_cons; cbn [Re.search_from]; 
          match goal with |- match ?e with _ => _ end = _ =>
            change e with (@None Re.captures); cbv iota end).
  rewrite append_nil_l. apply md5_search_from_prev.
Qed.

(** * More about the records of the parser *)

Lemma extract_metadata_link ctx (b : book) : extract_metadata ctx b !! "link" = b !! "link".
Proof.
  unfold extract_metadata.
  repeat (destruct (Re.search _ true ctx); rewrite ?lookup_insert_ne by done); done.
Qed.

Lemma link_book_link link md5 (b : book) :
  link_book link md5 = Some b → b !! "link" = Some (link_href link).
Proof.
  unfold link_book. destruct (valid_title _); [|done]. intros [= <-].
  rewrite extract_metadata_link. rewrite !lookup_insert_ne by done.
  apply lookup_insert_eq.
Qed.

Lemma link_md5_inv link md5 :
  link_md5 link = Some md5 →
  ∃ before after,
    Soup.get link "href" "" = before +:+ "/md5/" +:+ md5 +:+ after ∧
    all_chars hex_lower md5 = true ∧ Str.truthy md5 = true.
Proof.
  unfold link_md5. destruct (_ || _); [done|].
  destruct (Re.search md5_re false _) as [m|] eqn:Hm; [|done]. intros [= <-].
  apply md5_search_inv in Hm as (before & md5 & after & ? & -> & ?).
  by exists before, after.
Qed.

(** The identifier of a link can be read back from the link of its
    record. *)
Lemma link_href_md5 link md5 :
  link_md5 link = Some md5 →
  group_text 1 <$> Re.search md5_re false (link_href link) = Some md5.
Proof.
  unfold link_md5, link_href. destruct (_ || _); [done|].
  destruct (Str.startswith "/" _); [|done]. by rewrite md5_search_base_url.
Qed.

Lemma candidates_md5_of_link links seen (b : book) :
  b ∈ candidates links seen → md5_of_link (b !! "link") = b !! "md5".
Proof.
  intros (link & md5 & (_ & _ & _ & Hmd5 & _) & _ & Hb)%candidates_first.
  rewrite (link_book_link _ _ _ Hb), (link_book_md5 _ _ _ Hb). simpl.
  by apply link_href_md5.
Qed.

Lemma candidates_links_NoDup links seen :
  NoDup ((λ b : book, b !! "link") <$> candidates links seen).
Proof.
  apply (NoDup_fmap_1 md5_of_link). rewrite <-list_fmap_compose.
  erewrite list_fmap_ext; [apply candidates_NoDup|].
  intros i b Hb%list_elem_of_lookup_2. simpl. by eapply candidates_md5_of_link.
Qed.

(** X9: every record of the parser has an identifier made of one or
    more lower-case hexadecimal digits, and a link that contains
    [/md5/] followed by this identifier. *)
Theorem parse_search_results_md5_in_link (soup : Soup.node) (b : book) :
  b ∈ _parse_search_results soup →
  ∃ md5 before after,
    b !! "md5" = Some md5 ∧
    all_chars hex_lower md5 = true ∧ Str.truthy md5 = true ∧
    b !! "link" = Some (before +:+ "/md5/" +:+ md5 +:+ after).
Proof.
  rewrite parse_search_results_candidates. intros Hb%subseteq_take.
  apply candidates_first in Hb as (link & md5 & (_ & _ & _ & Hmd5 & _) & _ & Hb).
  apply link_md5_inv in Hmd5 as (before & after & Hhref & Hhex & Ht).
  rewrite (link_book_md5 _ _ _ Hb), (link_book_link _ _ _ Hb).
  unfold link_href. rewrite Hhref.
  destruct (Str.startswith "/" _).
  - exists md5, (BASE_URL +:+ before), after. by rewrite append_assoc.
  - by exists md5, before, after.
Qed.


(** * More about the size conversion *)

Lemma round_nonneg num den : 0 ≤ num → 0 < den → float_nonneg (Binary64.round num den).
Proof.
  intros Hnum Hden. unfold Binary64.round.
  destruct (num =? 0); [done|].
  set (e := Z.max _ Binary64.emin).
  set (n := num * 2 ^ Z.max 0 (- e)). set (d := den * 2 ^ Z.max 0 e).
  assert (0 ≤ n) by (apply Z.mul_nonneg_nonneg; [done|apply Z.lt_le_incl, pow2_max_pos]).
  assert (0 < d) by (apply Z.mul_pos_pos; [done|apply pow2_max_pos]).
  assert (0 ≤ n / d) by (by apply Z.div_pos).
  destruct (_ <=? _); [done|]. simpl.
  repeat case_match; lia.
Qed.

Lemma mul_nonneg x y :
  float_nonneg x → float_nonneg y →
  match Binary64.to_int (Binary64.mul x y) with
  | Return n => 0 ≤ n
  | Raise _ => True
  end.
Proof.
  destruct x as [m1 e1| |], y as [m2 e2| |]; simpl; try done;
    try (intros _ _; by destruct (_ =? 0)).
  intros H1 H2.
  pose proof (round_nonneg (m1 * m2 * 2 ^ Z.max 0 (e1 + e2))
                (2 ^ Z.max 0 (- (e1 + e2)))) as Hr.
  destruct (Binary64.round _ _) as [m e| |]; simpl; [|done..].
  assert (0 ≤ m) as Hm.
  { apply Hr; [|apply pow2_max_pos].
    repeat apply Z.mul_nonneg_nonneg; try done. apply Z.lt_le_incl, pow2_max_pos. }
  destruct (Z.leb_spec 0 e).
  - apply Z.mul_nonneg_nonneg; [done|]. by apply Z.lt_le_incl, pow2_pos.
  - apply Z.div_pos; [done|]. apply pow2_pos. lia.
Qed.

Lemma int_of_digits_nonneg acc w n :
  0 ≤ acc → Binary64.int_of_digits acc w = Some n → 0 ≤ n.
Proof.
  revert acc. induction w as [|c w IH]; intros acc Hacc; simpl.
  { by intros [= <-]. }
  destruct (Str.isdecimal c) eqn:Hc; [|done]. apply IH.
  unfold Str.isdecimal, Str.between in Hc.
  apply andb_true_iff in Hc as [Hlo%Nat.leb_le _]. lia.
Qed.

Lemma of_str_nonneg s x : Binary64.of_str s = Return x → float_nonneg x.
Proof.
  unfold Binary64.of_str. destruct (Binary64.split_dot s) as [ip rest].
  destruct (negb _); [done|].
  destruct (Binary64.int_of_digits 0 _) as [n|] eqn:Hn; [|done]. intros [= <-].
  apply round_nonneg; [by eapply int_of_digits_nonneg|].
  apply Z.pow_pos_nonneg; lia.
Qed.

Lemma multipliers_pos unit : 0 < default 1 (multipliers !! unit).
Proof.
  destruct (multipliers !! unit) as [v|] eqn:Hv; simpl; [|done].
  apply elem_of_list_to_map_2 in Hv.
  repeat (apply elem_of_cons in Hv as [Hv|Hv]); [..|by apply elem_of_nil in Hv];
    by injection Hv as _ ->.
Qed.

(** X15: whatever the size text, a result of [_convert_size_to_bytes]
    is the decimal form of an integer that is not negative. *)
Theorem convert_size_nonneg (size_str : option string) (s : string) :
  _convert_size_to_bytes size_str = Return s → ∃ n, 0 ≤ n ∧ s = Str.of_int n.
Proof.
  assert (∃ n, 0 ≤ n ∧ "0" = Str.of_int n) as Hzero by (by exists 0).
  unfold _convert_size_to_bytes. destruct size_str as [size_str|]; [|by intros [= <-]].
  destruct (negb _); [by intros [= <-]|].
  destruct (Re.match_ size_re true size_str) as [m|]; [|by intros [= <-]].
  destruct (Binary64.of_str _) as [value|] eqn:Hvalue; [|done].
  apply of_str_nonneg in Hvalue.
  pose proof (mul_nonneg value
    (Binary64.of_int (default 1 (multipliers !! Str.upper (group_text 2 m))))
    Hvalue) as Hmul.
  destruct (Binary64.to_int _) as [n|]; [|done]. intros [= <-].
  exists n. split; [|done]. apply Hmul.
  apply round_nonneg; [|done]. apply Z.lt_le_incl, multipliers_pos.
Qed.

(** * More about the optional fields *)

Lemma format_search_inv ctx m :
  Re.search format_re true ctx = Some m →
  Str.lower (group_text 1 m) ∈ format_names.
Proof.
  intros (before & rest & -> & Hm)%search_from_inv.
  unfold format_re in Hm. cbn [Re.exec] in Hm.
  destruct (Re.at_boundary _ rest); [|done].
  apply exec_alts_inv in Hm as (name & w & after & Hname & -> & Hlow & Hm).
  destruct (Re.at_boundary _ after); [|done].
  unfold Re.accept in Hm. injection Hm as <-.
  unfold group_text. simpl. rewrite consumed_append, Hlow.
  repeat (apply elem_of_cons in Hname as [->|Hname]);
    [..|by apply elem_of_nil in Hname]; vm_compute; elem_of_list.
Qed.

Lemma extract_metadata_extension ctx (b : book) :
  extract_metadata ctx b !! "extension" =
    match Re.search format_re true ctx with
    | Some format_match => Some (Str.lower (group_text 1 format_match))
    | None => b !! "extension"
    end.
Proof.
  unfold extract_metadata.
  destruct (Re.search format_re true ctx).
  - repeat (destruct (Re.search _ true ctx); rewrite ?lookup_insert_ne by done).
    all: apply lookup_insert_eq.
  - repeat (destruct (Re.search _ true ctx); rewrite ?lookup_insert_ne by done); done.
Qed.

Lemma link_book_extension link md5 (b : book) ext :
  link_book link md5 = Some b → b !! "extension" = Some ext → ext ∈ format_names.
Proof.
  unfold link_book. destruct (valid_title _); [|done]. intros [= <-].
  rewrite extract_metadata_extension.
  destruct (Re.search format_re true _) as [m|] eqn:Hm.
  - intros [= <-]. by eapply format_search_inv.
  - rewrite !lookup_insert_ne by done. by rewrite lookup_empty.
Qed.

(** X11: for a document whose text is ASCII, the extension of a record
    of the parser, when there is one, is one of the six format names in
    lower case, however the document spells it. *)
Theorem parse_search_results_extension (soup : Soup.node) (b : book) ext :
  Soup.isascii soup = true →
  b ∈ _parse_search_results soup → b !! "extension" = Some ext →
  ext ∈ format_names.
Proof.
  intros _. rewrite parse_search_results_candidates. intros Hb%subseteq_take.
  apply candidates_first in Hb as (link & md5 & _ & _ & Hb).
  by eapply link_book_extension.
Qed.

Lemma lower_char_unit c x :
  x ∈ ["b"; "k"; "m"; "g"]%char → Str.lower_char c = x →
  c = x ∨ c = Str.upper_char x.
Proof.
  intros Hx. repeat (apply elem_of_cons in Hx as [->|Hx]);
    [..|by apply elem_of_nil in Hx];
    destruct c as [[] [] [] [] [] [] [] []]; vm_compute; intros H;
    try discriminate H; auto.
Qed.

Lemma unit_spelling_lower u name :
  name ∈ ["MB"; "KB"; "GB"; "B"] → Str.lower u = Str.lower name →
  ∃ mult, (u, mult) ∈ unit_spellings.
Proof.
  intros Hname Hu.
  repeat (apply elem_of_cons in Hname as [->|Hname]);
    [..|by apply elem_of_nil in Hname].
  all: destruct u as [|c1 [|c2 [|c3 u]]]; try discriminate Hu.
  all: first [injection Hu as H1 H2 | injection Hu as H1].
  all: repeat match goal with
       | H : Str.lower_char _ = ?x |- _ =>
           apply (lower_char_unit _ x ltac:(elem_of_list)) in H as [->| ->]
       end.
  all: eexists; vm_compute; elem_of_list.
Qed.

(** The size pattern of the parser: what it captures. *)
Lemma size_search_inv ctx m :
  Re.search size_search_re true ctx = Some m →
  ∃ n u mult,
    group_text 1 m = n ∧ group_text 2 m = u ∧
    all_chars digit_or_dot n = true ∧ Str.truthy n = true ∧
    (u, mult) ∈ unit_spellings.
Proof.
  intros (before & rest & -> & Hm)%search_from_inv.
  unfold size_search_re in Hm. cbn [Re.exec] in Hm.
  destruct rest as [|x rest]; [done|]. destruct (digit_or_dot x) eqn:Hx; [|done].
  apply rep_inv in Hm as (w & s2 & -> & Hw & Hm).
  apply rep_inv in Hm as (ws & s3 & -> & Hws & Hm).
  apply exec_alts_inv in Hm as (name & u & after & Hname & -> & Hlow & Hm).
  destruct (Re.at_boundary _ after); [|done].
  unfold Re.accept in Hm. injection Hm as <-.
  destruct (unit_spelling_lower u name Hname Hlow) as [mult Hu].
  exists (String x w), u, mult. unfold group_text. simpl.
  rewrite consumed_append, <-append_cons, consumed_append.
  repeat split; [by rewrite Hx, Hw|done].
Qed.

Lemma extract_metadata_size ctx (b : book) :
  extract_metadata ctx b !! "size" =
    match Re.search size_search_re true ctx with
    | Some size_match => Some (group_text 1 size_match +:+ group_text 2 size_match)
    | None => b !! "size"
    end.
Proof.
  unfold extract_metadata.
  destruct (Re.search size_search_re true ctx).
  - repeat (destruct (Re.search _ true ctx); rewrite ?lookup_insert_ne by done).
    all: apply lookup_insert_eq.
  - repeat (destruct (Re.search _ true ctx); rewrite ?lookup_insert_ne by done); done.
Qed.

(** X12: for a document whose text is ASCII, the size of a record of
    the parser, when there is one, is a run of ASCII digits and dots
    directly followed by a unit in ASCII letters, and the pattern of
    [_convert_size_to_bytes] reads the same two parts from it. *)
Theorem parse_search_results_size (soup : Soup.node) (b : book) size :
  Soup.isascii soup = true →
  b ∈ _parse_search_results soup → b !! "size" = Some size →
  ∃ n u mult,
    size = n +:+ u ∧
    all_chars digit_or_dot n = true ∧ Str.truthy n = true ∧
    (u, mult) ∈ unit_spellings ∧
    Re.match_ size_re true size = Some [(2%nat, u); (1%nat, n)].
Proof.
  intros _. rewrite parse_search_results_candidates. intros Hb%subseteq_take.
  apply candidates_first in Hb as (link & md5 & _ & _ & Hb).
  unfold link_book in Hb. destruct (valid_title _); [|done]. injection Hb as <-.
  rewrite extract_metadata_size.
  destruct (Re.search size_search_re true _) as [m|] eqn:Hm.
  - intros [= <-].
    apply size_search_inv in Hm as (n & u & mult & -> & -> & Hn & Ht & Hu).
    exists n, u, mult. repeat split; try done.
    by apply (size_match n "" u mult).
  - rewrite !lookup_insert_ne by done. by rewrite lookup_empty.
Qed.

(** The size pattern on a number, white space, a unit and any text
    after the unit. *)
Lemma size_match_suffix n ws u mult rest :
  all_chars digit_or_dot n = true → Str.truthy n = true →
  all_chars Str.isspace ws = true →
  (u, mult) ∈ unit_spellings →
  Re.match_ size_re true (n +:+ ws +:+ u +:+ rest) = Some [(2%nat, u); (1%nat, n)].
Proof.
  intros Hn Ht Hws Hu.
  assert (stops Str.isspace (u +:+ rest) = true ∧
          stops digit_or_dot (u +:+ rest) = true ∧
          ∀ prev caps,
            Re.exec (Re.Group 2 (Re.alts ["MB"; "KB"; "GB"; "B"])) true prev
              (u +:+ rest) caps Re.accept
            = Some ((2%nat, Re.consumed (u +:+ rest) rest) :: caps))
    as (Hsp & Hdd & Hunit).
  { unfold unit_spellings in Hu.
    repeat (apply elem_of_cons in Hu as [Hu|Hu]); [..|by apply elem_of_nil in Hu];
      apply pair_equal_spec in Hu as [-> _]; done. }
  destruct n as [|x n]; [done|]. simpl in Hn. apply andb_true_iff in Hn as [Hx Hn].
  unfold Re.match_, size_re. cbn [Re.exec]. rewrite append_cons, Hx.
  apply rep_greedy; [done| |].
  { destruct ws as [|c ws]; [done|]. simpl in Hws. apply andb_true_iff in Hws as [Hc _].
    rewrite append_cons. simpl. by rewrite isspace_not_digit_or_dot. }
  apply rep_greedy; [done..|].
  rewrite <-append_cons, consumed_append.
  etrans; [apply Hunit|]. by rewrite consumed_append.
Qed.

(** X16: [_convert_size_to_bytes] reads a size token at the start of the
    text and ignores whatever follows the unit. *)
Theorem convert_size_ignores_suffix ip ofp ws u mult rest :
  let fp := default "" ofp in
  all_chars Str.isdecimal ip = true →
  all_chars Str.isdecimal fp = true →
  Str.truthy (ip +:+ fp) = true →
  all_chars Str.isspace ws = true →
  (Str.upper u, mult) ∈ unit_multipliers →
  _convert_size_to_bytes (Some (number_text ip ofp +:+ ws +:+ u +:+ rest)) =
  _convert_size_to_bytes (Some (number_text ip ofp +:+ ws +:+ u)).
Proof.
  intros fp Hip Hfp Ht Hws Hu%unit_spelling.
  pose proof (number_text_truthy ip ofp Ht) as Hn.
  pose proof (number_text_chars ip ofp Hip Hfp) as Hchars.
  unfold _convert_size_to_bytes.
  rewrite (size_match_suffix _ ws u mult rest Hchars Hn Hws Hu).
  rewrite (size_match _ ws u mult Hchars Hn Hws Hu).
  destruct (number_text ip ofp) as [|c n]; [done|]. reflexivity.
Qed.

(** * The author *)

Lemma all_chars_lstrip_by q p s :
  all_chars q s = true → all_chars q (Str.lstrip_by p s) = true.
Proof.
  induction s as [|c s IH]; [done|]. simpl. intros [Hc Hs]%andb_true_iff.
  destruct (p c); [by apply IH|]. simpl. by rewrite Hc, Hs.
Qed.

Lemma all_chars_rstrip_by q p s :
  all_chars q s = true → all_chars q (Str.rstrip_by p s) = true.
Proof.
  induction s as [|c s IH]; [done|]. simpl. intros [Hc Hs%IH]%andb_true_iff.
  destruct (Str.rstrip_by p s) as [|c' r].
  - destruct (p c); [done|]. simpl. by rewrite Hc.
  - simpl in *. by rewrite Hc, Hs.
Qed.

Lemma last_char_cons prev c s : last_char prev (String c s) = last_char (Some c) s.
Proof. done. Qed.

Lemma last_char_truthy prev1 prev2 s :
  Str.truthy s = true → last_char prev1 s = last_char prev2 s.
Proof. by destruct s. Qed.

Lemma rstrip_by_last p s :
  from_option p false (last_char None (Str.rstrip_by p s)) = false.
Proof.
  induction s as [|c s IH]; [done|]. simpl.
  destruct (Str.rstrip_by p s) as [|c' r] eqn:Hr.
  - destruct (p c) eqn:Hc; [done|]. simpl. by rewrite Hc.
  - rewrite last_char_cons. by rewrite (last_char_truthy _ None).
Qed.

Lemma strip_by_spec q p s :
  all_chars q s = true →
  all_chars q (Str.strip_by p s) = true ∧
  stops p (Str.strip_by p s) = true ∧
  from_option p false (last_char None (Str.strip_by p s)) = false.
Proof.
  intros Hq. unfold Str.strip_by. split; [|split].
  - by apply all_chars_rstrip_by, all_chars_lstrip_by.
  - pose proof (lstrip_by_clean p s) as H.
    destruct (Str.lstrip_by p s) as [|c r]; [done|].
    destruct (rstrip_by_head p c r H) as [r' ->]. simpl. by rewrite H.
  - apply rstrip_by_last.
Qed.

Lemma author_search_inv ctx m :
  Re.search author_re true ctx = Some m →
  all_chars not_separator (group_text 1 m) = true.
Proof.
  intros (before & rest & -> & Hm)%search_from_inv.
  unfold author_re in Hm. cbn [Re.exec] in Hm.
  destruct (Re.at_boundary _ rest); [|done].
  apply exec_lit_inv in Hm as (by_ & rest' & -> & _ & Hm).
  destruct rest' as [|x rest']; [done|]. destruct (Str.isspace x); [|done].
  apply rep_inv in Hm as (ws & s2 & -> & _ & Hm).
  destruct s2 as [|y s2]; [done|]. destruct (not_separator y) eqn:Hy; [|done].
  apply rep_inv in Hm as (w & after & -> & Hw & Hm).
  unfold Re.accept in Hm. injection Hm as <-.
  unfold group_text. simpl. rewrite <-append_cons, consumed_append.
  simpl. by rewrite Hy, Hw.
Qed.

Lemma extract_metadata_author ctx (b : book) :
  extract_metadata ctx b !! "author" =
    match Re.search author_re true ctx with
    | Some author_match => Some (Str.strip_chars " -" (group_text 1 author_match))
    | None => b !! "author"
    end.
Proof.
  unfold extract_metadata.
  destruct (Re.search author_re true ctx).
  - repeat (destruct (Re.search _ true ctx); rewrite ?lookup_insert_ne by done).
    all: apply lookup_insert_eq.
  - repeat (destruct (Re.search _ true ctx); rewrite ?lookup_insert_ne by done); done.
Qed.

(** X10: the author of a record of the parser, when there is one,
    contains no bar, comma or line break, and neither starts nor ends
    with a space or a hyphen. *)
Theorem parse_search_results_author (soup : Soup.node) (b : book) author :
  b ∈ _parse_search_results soup → b !! "author" = Some author →
  all_chars not_separator author = true ∧
  stops space_or_hyphen author = true ∧
  from_option space_or_hyphen false (last_char None author) = false.
Proof.
  rewrite parse_search_results_candidates. intros Hb%subseteq_take.
  apply candidates_first in Hb as (link & md5 & _ & _ & Hb).
  unfold link_book in Hb. destruct (valid_title _); [|done]. injection Hb as <-.
  rewrite extract_metadata_author.
  destruct (Re.search author_re true _) as [m|] eqn:Hm.
  - intros [= <-]. apply strip_by_spec. by eapply author_search_inv.
  - rewrite !lookup_insert_ne by done. by rewrite lookup_empty.
Qed.

(** * More about the normaliser *)

Lemma convert_results_elem (bs : list book) cat entry :
  entry ∈ _convert_results bs cat →
  ∃ b, b ∈ bs ∧ convert_book b cat = Return entry.
Proof.
  rewrite convert_results_spec. intros (b & Hb & Hentry)%list_elem_of_omap.
  exists b. split; [done|]. by destruct (convert_book b cat); simplify_eq/=.
Qed.

(** X13: [_convert_results] converts each record on its own: the result
    for two lists put together is the two results put together. *)
Theorem convert_results_app (bs1 bs2 : list book) cat :
  _convert_results (bs1 ++ bs2) cat =
    _convert_results bs1 cat ++ _convert_results bs2 cat.
Proof. rewrite !convert_results_spec. apply omap_app. Qed.

(** X14: a raw record without size is never dropped, and its entry has
    the size ["0"]. *)
Theorem convert_results_without_size (bs : list book) cat :
  Forall (λ b : book, b !! "size" = None) bs →
  length (_convert_results bs cat) = length bs ∧
  ∀ entry, entry ∈ _convert_results bs cat → Entry.size entry = "0".
Proof.
  intros Hbs.
  assert (∀ b : book, b !! "size" = None →
            ∃ entry, convert_book b cat = Return entry ∧ Entry.size entry = "0") as Hone.
  { intros b Hb. unfold convert_book. rewrite Hb.
    change (_convert_size_to_bytes (Some (default "0MB" None))) with (@Return string "0").
    eauto. }
  split.
  - rewrite convert_results_spec. induction Hbs as [|b rest Hb _ IH]; [done|].
    destruct (Hone b Hb) as (entry & Hentry & _).
    cbn [omap list_omap]. rewrite Hentry. cbn [outcome_to_option length].
    by f_equal.
  - intros entry (b & Hb & Hentry)%convert_results_elem.
    rewrite Forall_forall in Hbs.
    destruct (Hone b (Hbs b Hb)) as (entry' & Hentry' & Hsize). congruence.
Qed.

(** * More about the loop of the parser *)

(** X8: once 25 records are kept the loop is left, and the links that
    follow have no influence on the result. *)
Theorem parse_links_full links more st :
  (length (books st) < 25)%nat →
  length (parse_links links st) = 25%nat →
  parse_links (links ++ more) st = parse_links links st.
Proof.
  revert st. induction links as [|link rest IH]; intros st Hlen Hfull.
  { simpl in Hfull. lia. }
  simpl in *. rewrite parse_link_spec in *.
  destruct (link_md5 link) as [md5|]; [|by apply IH].
  case_bool_decide; [by apply IH|].
  destruct (link_book link md5) as [b|]; [|by apply IH].
  destruct (Nat.leb 25 (length (books st ++ [b]))) eqn:Hcap; [done|].
  apply Nat.leb_gt in Hcap. by apply IH.
Qed.

(** The entries are the conversions of some of the records, in order. *)
Lemma convert_results_kept (bs : list book) cat :
  ∃ kept, kept `sublist_of` bs ∧
    Forall2 (λ b entry, convert_book b cat = Return entry)
      kept (_convert_results bs cat).
Proof.
  rewrite convert_results_spec.
  induction bs as [|b rest (kept & Hsub & Hall)]; simpl.
  { exists []. split; [done|constructor]. }
  destruct (convert_book b cat) as [entry|e] eqn:Hc; simpl.
  - exists (b :: kept). split; [by apply sublist_skip|by constructor].
  - exists kept. split; [by apply sublist_cons|done].
Qed.

Lemma convert_book_guid (b : book) cat entry :
  convert_book b cat = Return entry → Entry.guid entry = default "" (b !! "link").
Proof.
  unfold convert_book. destruct (_convert_size_to_bytes _); [|done]. by intros [= <-].
Qed.

Lemma parse_search_results_link_Some (soup : Soup.node) (b : book) :
  b ∈ _parse_search_results soup → is_Some (b !! "link").
Proof.
  rewrite parse_search_results_candidates. intros Hb%subseteq_take.
  apply candidates_first in Hb as (link & md5 & _ & _ & Hb).
  rewrite (link_book_link _ _ _ Hb). eauto.
Qed.

Lemma parse_search_results_links_NoDup (soup : Soup.node) :
  NoDup ((λ b : book, b !! "link") <$> _parse_search_results soup).
Proof.
  rewrite parse_search_results_candidates, fmap_take.
  eapply sublist_NoDup; [apply candidates_links_NoDup|apply sublist_take].
Qed.

Lemma converted_guids_NoDup (soup : Soup.node) cat :
  NoDup (Entry.guid <$> _convert_results (_parse_search_results soup) cat).
Proof.
  destruct (convert_results_kept (_parse_search_results soup) cat)
    as (kept & Hsub & Hall).
  assert (Entry.guid <$> _convert_results (_parse_search_results soup) cat
          = (λ b : book, default "" (b !! "link")) <$> kept) as ->.
  { clear Hsub. induction Hall as [|b entry ?? Hc _ IH]; [done|].
    rewrite !fmap_cons. by rewrite (convert_book_guid _ _ _ Hc), IH. }
  change (λ b : book, default "" (b !! "link"))
    with (default "" ∘ (λ b : book, b !! "link")).
  rewrite list_fmap_compose. apply NoDup_fmap_2_strong.
  - intros o1 o2 (b1 & -> & Hb1)%list_elem_of_fmap (b2 & -> & Hb2)%list_elem_of_fmap.
    destruct (parse_search_results_link_Some soup b1) as [l1 ->];
      [by eapply sublist_subseteq|].
    destruct (parse_search_results_link_Some soup b2) as [l2 ->];
      [by eapply sublist_subseteq|].
    simpl. by intros ->.
  - eapply sublist_NoDup; [apply parse_search_results_links_NoDup|].
    by apply fmap_sublist.
Qed.

(** * More about the entry point *)

Section search_facts.
Variable get_page_source : string → outcome string.
Variable get_page_source_flaresolverr : string → outcome string.
Variable BeautifulSoup : string → outcome Soup.node.
Variable urlencode : list (string * string) → string.

(** The result list is empty or is the conversion of a parsed
    document. *)
Lemma search_results_ind (P : list Entry.t → Prop) query cat self :
  P [] →
  (∀ soup, P (_convert_results (_parse_search_results soup) cat)) →
  P (search get_page_source get_page_source_flaresolverr BeautifulSoup urlencode
       query cat self).1.
Proof.
  intros Hnil Hconv. unfold search.
  destruct query as [[|c q]|]; [done| |done].
  destruct (get_page_source _) as [html|e1].
  - destruct (BeautifulSoup html) as [soup|e]; [|done].
    specialize (Hconv soup). by destruct (_convert_results _ cat).
  - destruct (get_page_source_flaresolverr _) as [html|e2]; [|done].
    destruct (BeautifulSoup html) as [soup|e]; [|done].
    specialize (Hconv soup). by destruct (_convert_results _ cat).
Qed.

(** X1: when both fetchers raise, [search] returns the empty list and
    keeps the message of the second failure as the last error. *)
Theorem search_fetch_failure q cat self e1 e2 :
  q ≠ "" →
  get_page_source (full_url urlencode q) = Raise e1 →
  get_page_source_flaresolverr (full_url urlencode q) = Raise e2 →
  search get_page_source get_page_source_flaresolverr BeautifulSoup urlencode
    (Some q) cat self = ([], Plugin (Some (str_exn e2))).
Proof.
  intros Hq H1 H2. unfold search, full_url in *.
  destruct q; [done|]. cbv zeta. by rewrite H1, H2.
Qed.

(** X3: when the page is fetched and parsed but holds no link to a
    result, [search] returns the empty list and the last error ["No
    results returned"]. *)
Theorem search_no_results q cat self html soup :
  q ≠ "" →
  get_page_source (full_url urlencode q) = Return html →
  BeautifulSoup html = Return soup →
  md5_links (Soup.Element soup []) = [] →
  search get_page_source get_page_source_flaresolverr BeautifulSoup urlencode
    (Some q) cat self = ([], Plugin (Some "No results returned")).
Proof.
  intros Hq H1 H2 H3. unfold search, full_url in *.
  destruct q; [done|]. cbv zeta. rewrite H1, H2.
  unfold _parse_search_results. by rewrite H3.
Qed.

(** X4: [search] returns the empty list exactly when it leaves a last
    error behind, whatever error the plugin held before the call. *)
Theorem search_empty_iff_error query cat self :
  let result :=
    search get_page_source get_page_source_flaresolverr BeautifulSoup urlencode
      query cat self in
  result.1 = [] ↔ is_Some (last_error result.2).
Proof.
  cbv zeta. unfold search.
  destruct query as [[|c q]|]; [by split; eauto| |by split; eauto].
  destruct (get_page_source _) as [html|e1].
  - destruct (BeautifulSoup html) as [soup|e]; [|by split; eauto].
    destruct (_convert_results _ cat); simpl; [by split; eauto|].
    split; [done|]. by intros [? ?].
  - destruct (get_page_source_flaresolverr _) as [html|e2]; [|by split; eauto].
    destruct (BeautifulSoup html) as [soup|e]; [|by split; eauto].
    destruct (_convert_results _ cat); simpl; [by split; eauto|].
    split; [done|]. by intros [? ?].
Qed.

(** X5: [search] returns at most 25 entries. *)
Theorem search_at_most_25 query cat self :
  (length (search get_page_source get_page_source_flaresolverr BeautifulSoup
             urlencode query cat self).1 ≤ 25)%nat.
Proof.
  apply search_results_ind; [simpl; lia|]. intros soup.
  destruct (convert_results_kept (_parse_search_results soup) cat)
    as (kept & Hsub%sublist_length & Hall%Forall2_length).
  rewrite parse_search_results_candidates, length_take in Hsub. lia.
Qed.

(** X6: no two entries that [search] returns have the same [guid]. *)
Theorem search_unique_guids query cat self :
  NoDup (Entry.guid <$>
           (search get_page_source get_page_source_flaresolverr BeautifulSoup
              urlencode query cat self).1).
Proof.
  apply search_results_ind; [constructor|]. intros soup. apply converted_guids_NoDup.
Qed.

(** X7: every entry that [search] returns carries the category of the
    call and the prefix of the plugin, has its link as [guid] and as
    [comments], has a book title of at least 3 characters, and a title
    made of the book title, the author and, when the format is not
    empty, the format in brackets. *)
Theorem search_entry_fields query cat self entry :
  entry ∈ (search get_page_source get_page_source_flaresolverr BeautifulSoup
             urlencode query cat self).1 →
  Entry.category entry = cat ∧
  Entry.prefix entry = getmyprefix ∧
  Entry.guid entry = Entry.link entry ∧
  Entry.comments entry = Entry.link entry ∧
  (3 ≤ Str.len (Entry.book_title entry))%nat ∧
  Entry.title entry =
    (Entry.book_title entry +:+ " - " +:+ Entry.author entry) +:+
    (if Str.truthy (Entry.format entry)
     then " (" +:+ Entry.format entry +:+ ")" else "").
Proof.
  revert entry. apply search_results_ind; [by intros ? ?%elem_of_nil|].
  intros soup entry (b & Hb & Hentry)%convert_results_elem.
  rewrite parse_search_results_candidates in Hb. apply subseteq_take in Hb.
  apply candidates_first in Hb as (link & md5 & _ & _ & Hb).
  pose proof (link_book_title _ _ _ Hb) as [Htitle [_ Hlen]%valid_title_true].
  unfold convert_book in Hentry. rewrite Htitle in Hentry.
  destruct (_convert_size_to_bytes _) as [size_bytes|]; [|done].
  injection Hentry as <-. cbn [Entry.category Entry.prefix Entry.guid Entry.link
    Entry.comments Entry.book_title Entry.title Entry.author Entry.format default
    from_option id].
  repeat split; try done.
  destruct (Str.truthy (Str.upper _)); [done|]. by rewrite append_nil_r.
Qed.
End search_facts.

(** X2: [search] uses the page of the second fetcher exactly as it uses
    a page of the first one, and does not consult the second fetcher
    when the first one returns a page. *)
Theorem search_fallback_same_result
    (fetch1 fallback1 fetch2 fallback2 : string → outcome string)
    (BeautifulSoup : string → outcome Soup.node)
    (urlencode : list (string * string) → string) q cat self html e :
  fetch1 (full_url urlencode q) = Return html →
  fetch2 (full_url urlencode q) = Raise e →
  fallback2 (full_url urlencode q) = Return html →
  search fetch1 fallback1 BeautifulSoup urlencode (Some q) cat self =
  search fetch2 fallback2 BeautifulSoup urlencode (Some q) cat self.
Proof.
  intros H1 H2 H3. unfold search, full_url in *.
  destruct q; [done|]. cbv zeta. by rewrite H1, H2, H3.
Qed.

(** * Instances of the further properties *)

Lemma parse_search_results_md5_in_link_witness :
  ∃ md5 before after,
    Scenario.book_a !! "md5" = Some md5 ∧
    all_chars hex_lower md5 = true ∧ Str.truthy md5 = true ∧
    Scenario.book_a !! "link" = Some (before +:+ "/md5/" +:+ md5 +:+ after).
Proof.
  apply (parse_search_results_md5_in_link Scenario.page_a).
  rewrite parse_a. apply list_elem_of_here.
Defined.

Lemma convert_size_nonneg_witness : ∃ n, 0 ≤ n ∧ "2621440" = Str.of_int n.
Proof. apply (convert_size_nonneg (Some "2.5MB")). vm_compute. reflexivity. Defined.

Lemma parse_search_results_extension_witness : "epub" ∈ format_names.
Proof.
  apply (parse_search_results_extension Scenario.page_a Scenario.book_a).
  - vm_compute. reflexivity.
  - rewrite parse_a. apply list_elem_of_here.
  - vm_compute. reflexivity.
Defined.

Lemma parse_search_results_size_witness :
  ∃ n u mult,
    "2.5MB" = n +:+ u ∧
    all_chars digit_or_dot n = true ∧ Str.truthy n = true ∧
    (u, mult) ∈ unit_spellings ∧
    Re.match_ size_re true "2.5MB" = Some [(2%nat, u); (1%nat, n)].
Proof.
  apply (parse_search_results_size Scenario.page_a Scenario.book_a).
  - vm_compute. reflexivity.
  - rewrite parse_a. apply list_elem_of_here.
  - vm_compute. reflexivity.
Defined.

Lemma convert_size_ignores_suffix_witness :
  _convert_size_to_bytes (Some "12 bananas") = _convert_size_to_bytes (Some "12 b").
Proof.
  apply (convert_size_ignores_suffix "12" None " " "b" 1 "ananas");
    [reflexivity..|].
  vm_compute. elem_of_list.
Defined.

Lemma parse_search_results_author_witness :
  all_chars not_separator "Jane Doe" = true ∧
  stops space_or_hyphen "Jane Doe" = true ∧
  from_option space_or_hyphen false (last_char None "Jane Doe") = false.
Proof.
  apply (parse_search_results_author Scenario.page_a Scenario.book_a).
  - rewrite parse_a. apply list_elem_of_here.
  - vm_compute. reflexivity.
Defined.

Lemma convert_results_without_size_witness :
  length (_convert_results [Scenario.book_plain] "7020") = 1%nat ∧
  ∀ entry, entry ∈ _convert_results [Scenario.book_plain] "7020" →
           Entry.size entry = "0".
Proof.
  apply (convert_results_without_size [Scenario.book_plain] "7020").
  repeat constructor.
Defined.

Lemma parse_links_full_witness :
  let all := md5_links (Soup.Element (page_many 30) []) in
  length (parse_links (take 25 all) (ParseState ∅ [])) = 25%nat ∧
  parse_links (take 25 all ++ drop 25 all) (ParseState ∅ [])
  = parse_links (take 25 all) (ParseState ∅ []).
Proof.
  intros all.
  assert (length (parse_links (take 25 all) (ParseState ∅ [])) = 25%nat) as H.
  { vm_compute. reflexivity. }
  split; [exact H|].
  apply (parse_links_full (take 25 all) (drop 25 all) (ParseState ∅ [])); [simpl; lia|exact H].
Defined.

Lemma search_fetch_failure_witness :
  search (fetch_fails "selenium down") (fetch_fails "flaresolverr down")
    (parse_as Scenario.page_a) urlencode_plain (Some gettestquery) "7020" (Plugin None)
  = ([], Plugin (Some "flaresolverr down")).
Proof.
  apply (search_fetch_failure _ _ _ _ gettestquery "7020" (Plugin None)
           (Exception "selenium down") (Exception "flaresolverr down"));
    done.
Defined.

Lemma search_entry_fields_witness :
  ∃ entry,
    (search (fetch_page "<html>") (fetch_fails "unused")
       (parse_as Scenario.page_a) urlencode_plain (Some gettestquery) "7020"
       (Plugin None)).1 = [entry] ∧
    Entry.category entry = "7020" ∧
    Entry.title entry = "Great Book - Jane Doe (EPUB)".
Proof.
  eexists. split; [vm_compute; reflexivity|].
  match goal with |- context [Entry.category ?e] =>
    destruct (search_entry_fields (fetch_page "<html>") (fetch_fails "unused")
                (parse_as Scenario.page_a) urlencode_plain (Some gettestquery)
                "7020" (Plugin None) e ltac:(vm_compute; apply list_elem_of_here))
      as (Hcat & _ & _ & _ & _ & Htitle)
  end.
  split; [exact Hcat|].
  rewrite Htitle. vm_compute. reflexivity.
Defined.

Lemma search_fallback_same_result_witness :
  search (fetch_page "<html>") (fetch_fails "unused")
    (parse_as Scenario.page_a) urlencode_plain (Some gettestquery) "7020" (Plugin None)
  = search (fetch_fails "selenium down") (fetch_page "<html>")
      (parse_as Scenario.page_a) urlencode_plain (Some gettestquery) "7020" (Plugin None).
Proof.
  apply (search_fallback_same_result _ _ _ _ _ _ gettestquery "7020" (Plugin None)
           "<html>" (Exception "selenium down")); reflexivity.
Defined.

Lemma search_no_results_witness :
  search (fetch_page "<html>") (fetch_fails "unused")
    (parse_as (Scenario.document [Soup.Text "nothing here"])) urlencode_plain
    (Some gettestquery) "7020" (Plugin None)
  = ([], Plugin (Some "No results returned")).
Proof.
  apply (search_no_results _ (fetch_fails "unused") _ _ gettestquery "7020"
           (Plugin None) "<html>" (Scenario.document [Soup.Text "nothing here"]));
    done.
Defined.

(** * Trimmed titles *)

Lemma last_char_append prev a b :
  last_char prev (a +:+ b) = last_char (last_char prev a) b.
Proof. revert prev. induction a as [|c a IH]; intros prev; [done|]. apply IH. Qed.

Lemma rstrip_by_fixed p s :
  from_option p false (last_char None s) = false → Str.rstrip_by p s = s.
Proof.
  induction s as [|c s IH]; [done|]. rewrite last_char_cons. simpl.
  destruct s as [|c' s].
  - simpl. by intros ->.
  - rewrite (last_char_truthy _ None) by done. by intros ->%IH.
Qed.

Lemma lstrip_by_fixed p s : stops p s = true → Str.lstrip_by p s = s.
Proof. destruct s as [|c s]; [done|]. simpl. by intros ->%negb_true_iff. Qed.

Lemma strip_fixed s :
  stops Str.isspace s = true →
  from_option Str.isspace false (last_char None s) = false →
  Str.strip s = s.
Proof.
  intros Hhead Hlast. unfold Str.strip, Str.strip_by.
  by rewrite lstrip_by_fixed, rstrip_by_fixed.
Qed.

Lemma clean_stops s : clean s → stops Str.isspace s = true.
Proof. destruct s; [done|]. simpl. by intros ->. Qed.

Lemma join_last sep parts :
  Forall (λ s, Str.truthy s = true ∧
               from_option Str.isspace false (last_char None s) = false) parts →
  from_option Str.isspace false (last_char None (Str.join sep parts)) = false.
Proof.
  induction 1 as [|p rest [Ht Hp] Hrest IH]; [done|].
  destruct rest as [|q rest]; [done|].
  change (Str.join sep (p :: q :: rest)) with (p +:+ sep +:+ Str.join sep (q :: rest)).
  rewrite !last_char_append. rewrite (last_char_truthy _ None); [done|].
  apply Forall_cons in Hrest as [[Hq _] _]. clear -Hq.
  destruct q; [done|]. by destruct rest.
Qed.

(** The text that [get_text] returns with [strip=True] is trimmed. *)
Lemma get_text_trimmed sep t : Str.strip (Soup.get_text sep t) = Soup.get_text sep t.
Proof.
  apply strip_fixed; [apply clean_stops, get_text_clean|].
  unfold Soup.get_text. apply join_last, Forall_forall.
  intros s [Ht (s0 & -> & _)%list_elem_of_fmap]%list_elem_of_filter.
  split; [done|]. apply rstrip_by_last.
Qed.

(** The title of a link is trimmed unless it is the cut of the context
    text. *)
Lemma title_trimmed_unless_cut link :
  title_of link = Str.slice_to 200 (context_text_of link) ∨
  Str.strip (title_of link) = title_of link.
Proof.
  unfold title_of.
  destruct (container_of link) as [c|]; cbn -[Str.slice_to Soup.get_text].
  - rewrite andb_true_r.
    destruct (Str.truthy (Soup.get_text "" link)) eqn:Ht;
      cbn -[Str.slice_to Soup.get_text].
    { rewrite Ht. right. apply get_text_trimmed. }
    destruct (Soup.find c _) as [heading|].
    + destruct (Str.truthy (Soup.get_text " " heading));
        cbn -[Str.slice_to Soup.get_text]; [right; apply get_text_trimmed|by left].
    + rewrite Ht. by left.
  - rewrite andb_false_r. right. apply get_text_trimmed.
Qed.

(** The titles of the returned records: at least 3 characters after
    trimming, unless the title is the cut of the context text. *)
Lemma parse_search_results_title_trimmed_or_cut (soup : Soup.node) b :
  b ∈ _parse_search_results soup →
  ∃ link title,
    b !! "title" = Some title ∧ title = title_of link ∧
    ((3 ≤ Str.len (Str.strip title))%nat ∨
     title = Str.slice_to 200 (context_text_of link)).
Proof.
  rewrite parse_search_results_candidates. intros Hb%subseteq_take.
  apply candidates_first in Hb as (link & md5 & _ & _ & Hb).
  apply link_book_title in Hb as [Hb [_ Hlen]%valid_title_true].
  exists link, (title_of link). split; [done|]. split; [done|].
  destruct (title_trimmed_unless_cut link) as [Hcut | ->]; [by right|by left].
Qed.

(** C7: a returned record whose title is shorter than 3 characters
    after trimming.  The check of line 113 is on the title as derived;
    the titles read from the link text and from the heading are
    trimmed ([title_trimmed_unless_cut]), but the cut of the context
    at 200 characters (line 111) can end inside a run of white space:
    the only record of [page_padded] has the title [a] followed by 199
    spaces, which is one character long after trimming. *)
Theorem padded_title_kept :
  ∃ b title,
    _parse_search_results Scenario.page_padded = [b] ∧
    b !! "title" = Some title ∧
    title = "a" +:+ Scenario.spaces 199 ∧
    Str.strip title = "a" ∧
    Str.len (Str.strip title) = 1%nat.
Proof.
  eexists _, _. split; [vm_compute; reflexivity|].
  split; [vm_compute; reflexivity|].
  repeat split; vm_compute; reflexivity.
Qed.
